(** * Image fusion client: orchestration of the two-stage remote pipeline

    A shallow embedding of the browser application's logic:
    - [fileToBase64], the upload handlers and [handleGenerateClick] of
      [App.tsx];
    - [generatePromptFromImage] and [generateFusedImages] of the remote
      service module;
    - [handleFileChange] of the upload widget and [handleDownload] of the
      gallery tile.

    The remote model, the file reader and the order in which concurrent
    promises settle are not code of the application: they are gathered in a
    [World] record and every statement quantifies over it. *)

From stdpp Require Import base list strings.
From Stdlib Require Import Ascii DecimalString DecimalNat.

Open Scope string_scope.
Open Scope list_scope.

(** ** JavaScript values used by the code *)

Module Js.

(** A thrown value.  [ErrorObj m] is an instance of [Error] with message
    [m]; [NonError] is any other thrown value (the [ProgressEvent] that
    [FileReader.onerror] receives is one). *)
Inductive Thrown : Type :=
| ErrorObj (message : string)
| NonError.

(** The settled state of a promise. *)
Inductive Settled (A : Type) : Type :=
| Fulfilled (value : A)
| Rejected (reason : Thrown).
Arguments Fulfilled {A} value.
Arguments Rejected {A} reason.

(** [string | undefined]: [None] is [undefined]. *)
Definition MaybeString : Type := option string.

(** [s.split(sep)] for a one-character separator. *)
Fixpoint split (sep : ascii) (s : string) : list string :=
  match s with
  | EmptyString => [EmptyString]
  | String c rest =>
      if Ascii.eqb c sep then EmptyString :: split sep rest
      else match split sep rest with
           | hd :: tl => String c hd :: tl
           | [] => [String c EmptyString]
           end
  end.

(** [s.startsWith(p)]. *)
Definition startsWith (p s : string) : bool := String.prefix p s.

(** Decimal rendering of a non-negative integer, as [`${n}`] prints it. *)
Definition showNat (n : nat) : string :=
  NilEmpty.string_of_uint (Nat.to_uint n).

(** Message of the [TypeError] raised when a property of [undefined] is
    read, or [undefined] is iterated.  The text is chosen by the engine;
    the application never displays it. *)
Definition undefinedAccess : Thrown :=
  ErrorObj "TypeError: cannot read properties of undefined".

End Js.

Import Js.

(** ** Data of the application *)

(** A browser [File]: the fields the code reads. *)
Record File : Type := mkFile {
  name : string;
  type : string
}.

Record UploadedImage : Type := mkUploaded {
  file : File;
  url : string
}.

(** Component state of [App]: one field per [useState] cell. *)
Record AppState : Type := mkApp {
  referenceImage : option UploadedImage;
  subjectImage : option UploadedImage;
  generatedImages : option (list string);
  isLoading : bool;
  error : option string;
  progressMessage : string;
  aspectRatio : string
}.

(** Initial values of the [useState] cells. *)
Definition initialState : AppState :=
  {| referenceImage := None; subjectImage := None; generatedImages := None;
     isLoading := false; error := None; progressMessage := EmptyString;
     aspectRatio := "1:1" |}.

(** ** Remote requests and responses *)

Record Blob : Type := mkBlob {
  mimeType : string;
  data : MaybeString
}.

(** The request of [generatePromptFromImage]. *)
Record StyleRequest : Type := mkStyleRequest {
  style_model : string;
  style_image : Blob;
  style_text : string;
  responseMimeType : string;
  required : list string
}.

(** The response of the style call: what its [text] accessor yields. *)
Record StyleResponse : Type := mkStyleResponse {
  text : string
}.

(** The request of one [generateSingleImage] call. *)
Record FusionRequest : Type := mkFusionRequest {
  fusion_model : string;
  fusion_image : Blob;
  fusion_text : string
}.

(** A part of a response: it may carry text, inline data, both or none. *)
Record InlineData : Type := mkInline {
  inline_mimeType : string;
  inline_data : string
}.

Record Part : Type := mkPart {
  part_text : option string;
  inlineData : option InlineData
}.

(** The response of a fusion call.  [parts] is the value found at
    [response.candidates[0].content.parts]; [None] when one of the links
    of that path is [undefined]. *)
Record FusionResponse : Type := mkFusionResponse {
  parts : option (list Part)
}.

(** Outcome of [FileReader.readAsDataURL]: [onload] with the result, or
    [onerror]. *)
Inductive ReadOutcome : Type :=
| Loaded (result : string)
| ReadFailed.

(** Everything outside the application. *)
Record World : Type := mkWorld {
  createObjectURL : File -> string;
  readAsDataURL : File -> ReadOutcome;
  styleModel : StyleRequest -> Settled StyleResponse;
  (** reply to the [i]-th fusion call of a run *)
  imageModel : nat -> FusionRequest -> Settled FusionResponse;
  (** order in which the fusion promises settle, by index of issue *)
  completion : list nat
}.

(** ** Tasks: sequential code over the component state

    An [async] function is a [Task]: it reads and writes the component
    state, appends to a log of the effects that leave the application, and
    ends by returning, by throwing, or never (a promise that stays
    pending). *)

Inductive Event : Type :=
| EvReadFile (f : File)
| EvStyleCall (req : StyleRequest)
| EvStyleFulfilled (response : StyleResponse)
| EvStyleRejected (reason : Thrown)
| EvFusionCall (i : nat) (req : FusionRequest)
| EvConsoleError (label : string)
| EvSuspend (shown : AppState).

Record Machine : Type := mkMachine {
  app : AppState;
  log : list Event
}.

Inductive Completion (A : Type) : Type :=
| Returned (a : A)
| Threw (e : Thrown)
| Pending.
Arguments Returned {A} a.
Arguments Threw {A} e.
Arguments Pending {A}.

Definition Task (A : Type) : Type := Machine -> Completion A * Machine.

#[global] Instance task_ret : MRet Task :=
  fun A a m => (Returned a, m).

#[global] Instance task_bind : MBind Task :=
  fun A B k t m =>
    match t m with
    | (Returned a, m') => k a m'
    | (Threw e, m') => (Threw e, m')
    | (Pending, m') => (Pending, m')
    end.

Definition throw {A : Type} (e : Thrown) : Task A :=
  fun m => (Threw e, m).

Definition emit (ev : Event) : Task unit :=
  fun m => (Returned tt, {| app := app m; log := log m ++ [ev] |}).

Definition getApp : Task AppState :=
  fun m => (Returned (app m), m).

Definition modifyApp (f : AppState -> AppState) : Task unit :=
  fun m => (Returned tt, {| app := f (app m); log := log m |}).

(** [try { body } catch (e) { handler e }]. *)
Definition try_catch {A : Type} (body : Task A) (handler : Thrown -> Task A)
  : Task A :=
  fun m =>
    match body m with
    | (Threw e, m') => handler e m'
    | other => other
    end.

(** [try { body } finally { fin }]: [fin] runs once [body] has completed,
    whichever way; it does not run while [body] is pending. *)
Definition try_finally {A : Type} (body : Task A) (fin : Task unit) : Task A :=
  fun m =>
    match body m with
    | (Pending, m') => (Pending, m')
    | (c, m') =>
        match fin m' with
        | (Returned _, m'') => (c, m'')
        | (Threw e, m'') => (Threw e, m'')
        | (Pending, m'') => (Pending, m'')
        end
    end.

(** [await p] for a promise whose settlement is known. *)
Definition settle {A : Type} (p : Settled A) : Task A :=
  match p with
  | Fulfilled v => mret v
  | Rejected e => throw e
  end.

(** [await t] inside the component: the handler yields, and the component
    is shown with the state set so far while [t] runs. *)
Definition await {A : Type} (t : Task A) : Task A :=
  s ← getApp; emit (EvSuspend s);; t.

Definition consoleError (label : string) : Task unit :=
  emit (EvConsoleError label).

(** ** [Promise.all]

    The promises are given by their settlements, in the order of the array;
    [order] lists the indices in the order in which they settle.  Each
    fulfilment stores its value at the index of its promise and decrements
    the count of promises still awaited; when the count reaches zero the
    array of values is the result.  The first rejection is the result, and
    nothing that settles afterwards changes it.  A promise settles once: an
    index whose value is already stored, or that names no promise, is
    ignored. *)

Section PromiseAll.
Context {A : Type}.

Record AllState : Type := mkAll {
  values : list (option A);
  remaining : nat;
  result : option (Settled (list A))
}.

Definition all_init (n : nat) : AllState :=
  {| values := replicate n None;
     remaining := n;
     result := if Nat.eqb n 0 then Some (Fulfilled []) else None |}.

Definition all_step (ps : list (Settled A)) (st : AllState) (i : nat)
  : AllState :=
  match result st with
  | Some _ => st
  | None =>
      match ps !! i, values st !! i with
      | Some (Rejected e), _ =>
          {| values := values st; remaining := remaining st;
             result := Some (Rejected e) |}
      | Some (Fulfilled v), Some None =>
          let vs := <[i := Some v]> (values st) in
          let r := Nat.pred (remaining st) in
          {| values := vs; remaining := r;
             result := if Nat.eqb r 0 then Some (Fulfilled (omap id vs))
                       else None |}
      | _, _ => st
      end
  end.

Definition promise_all (ps : list (Settled A)) (order : list nat)
  : option (Settled (list A)) :=
  result (foldl (all_step ps) (all_init (length ps)) order).

(** [await Promise.all(ps)]. *)
Definition awaitAll (ps : list (Settled A)) (order : list nat)
  : Task (list A) :=
  match promise_all ps order with
  | Some p => settle p
  | None => fun m => (Pending, m)
  end.

(** What holds of every state that [all_step] can reach for the promises
    [ps]: the count of promises awaited and the number of stored values add
    up to the number of promises, a stored value is the value of its
    promise, and the result, once set, is justified. *)
Record all_inv (ps : list (Settled A)) (st : AllState) : Prop := mkAllInv {
  inv_length : length (values st) = length ps;
  inv_count : remaining st + length (omap id (values st)) = length ps;
  inv_stored : forall j v,
    values st !! j = Some (Some v) -> ps !! j = Some (Fulfilled v);
  inv_result :
    match result st with
    | None => 0 < remaining st
    | Some (Fulfilled xs) => remaining st = 0 /\ xs = omap id (values st)
    | Some (Rejected e) => exists k, ps !! k = Some (Rejected e)
    end
}.

End PromiseAll.

(** ** The remote service module *)

Module Service.

Definition styleInstruction : string :=
  "Analyze this image in extreme detail. Create a JSON object describing its artistic style, subject, composition, lighting, color palette, and mood. This JSON will be used as a style guide for another AI to generate a new image.".

Definition requiredFields : list string :=
  ["style"; "subject"; "composition"; "lighting"; "colors"; "mood"].

Definition styleRequest (imageBase64 : MaybeString) (mime : string)
  : StyleRequest :=
  {| style_model := "gemini-2.5-flash";
     style_image := {| mimeType := mime; data := imageBase64 |};
     style_text := styleInstruction;
     responseMimeType := "application/json";
     required := requiredFields |}.

Definition styleFailedMessage : string :=
  "Failed to analyze the reference image. The content may have been blocked.".

(** [await ai.models.generateContent(...)] on the style model: the call
    leaves the application, then settles. *)
Definition callStyleModel (w : World) (req : StyleRequest)
  : Task StyleResponse :=
  emit (EvStyleCall req);;
  match styleModel w req with
  | Fulfilled response => emit (EvStyleFulfilled response);; mret response
  | Rejected e => emit (EvStyleRejected e);; throw e
  end.

Definition generatePromptFromImage (w : World) (imageBase64 : MaybeString)
    (mime : string) : Task string :=
  try_catch
    (response ← callStyleModel w (styleRequest imageBase64 mime);
     mret (text response))
    (fun _ =>
       consoleError "Error generating prompt from image:";;
       throw (ErrorObj styleFailedMessage)).

Definition finalPrompt (aspectRatio stylePrompt : string) : string :=
  "Instructions:
1.  **Primary Goal:** Recreate the person from the provided image within a new setting.
2.  **Person Replication:** The person's face, body, and clothing must be an EXACT replica of the person in the provided image. DO NOT change their appearance in any way. This is the most important rule.
3.  **New Scene:** Generate a new background and scene that strictly adheres to the style guide below.
4.  **Integration:** Seamlessly blend the person into the new scene, ensuring lighting and shadows on the person match the new environment.
5.  **Aspect Ratio:** The final image must have an aspect ratio of "
  +:+ aspectRatio +:+ ".

**Style Guide (for the new scene):**
" +:+ stylePrompt.

Definition fusionRequest (stylePrompt : string)
    (subjectImageBase64 : MaybeString) (subjectMimeType aspectRatio : string)
  : FusionRequest :=
  {| fusion_model := "gemini-2.5-flash-image";
     fusion_image := {| mimeType := subjectMimeType;
                        data := subjectImageBase64 |};
     fusion_text := finalPrompt aspectRatio stylePrompt |}.

Definition noImageMessage : string :=
  "Image generation failed, no image data found in response.".

Definition fusionFailedMessage : string :=
  "Failed to generate the final images. The content may have been blocked or the model failed.".

(** The loop of [generateSingleImage] over the parts of a response. *)
Fixpoint scanParts (ps : list Part) : Settled string :=
  match ps with
  | [] => Rejected (ErrorObj noImageMessage)
  | part :: rest =>
      match inlineData part with
      | Some d => Fulfilled (inline_data d)
      | None => scanParts rest
      end
  end.

(** What the promise of one [generateSingleImage()] settles to, given the
    settlement of its remote call. *)
Definition singleImageResult (reply : Settled FusionResponse)
  : Settled string :=
  match reply with
  | Rejected e => Rejected e
  | Fulfilled response =>
      match parts response with
      | None => Rejected undefinedAccess
      | Some ps => scanParts ps
      end
  end.

(** The [i]-th call [generateSingleImage()]: the remote call is issued at
    once and the promise is handed back. *)
Definition generateSingleImage (w : World) (req : FusionRequest) (i : nat)
  : Task (Settled string) :=
  emit (EvFusionCall i req);;
  mret (singleImageResult (imageModel w i req)).

Definition generateFusedImages (w : World) (stylePrompt : string)
    (subjectImageBase64 : MaybeString) (subjectMimeType aspectRatio : string)
  : Task (list string) :=
  let req :=
    fusionRequest stylePrompt subjectImageBase64 subjectMimeType aspectRatio in
  p0 ← generateSingleImage w req 0;
  p1 ← generateSingleImage w req 1;
  p2 ← generateSingleImage w req 2;
  p3 ← generateSingleImage w req 3;
  let imagePromises := [p0; p1; p2; p3] in
  try_catch
    (base64Images ← awaitAll imagePromises (completion w);
     mret base64Images)
    (fun _ =>
       consoleError "Error generating final images:";;
       throw (ErrorObj fusionFailedMessage)).

End Service.

(** ** The upload widget *)

Module ImageUploader.

(** [handleFileChange]: [files] is [event.target.files]; the result is the
    argument of the one call of [onImageUpload], if it is called. *)
Definition handleFileChange (files : option (list File)) : option File :=
  match files ≫= (fun fs => fs !! 0) with
  | Some file =>
      if startsWith "image/" (type file) then Some file else None
  | None => None
  end.

End ImageUploader.

(** ** The gallery tile *)

Module GeneratedImage.

Record Link : Type := mkLink {
  href : string;
  download : string
}.

(** The anchor that [handleDownload] builds and clicks.  [index] is the
    position of the tile in the gallery; [index + 1] is the sum of the
    code as long as it stays below 2^53, where the arithmetic of
    JavaScript numbers is exact. *)
Definition handleDownload (src : string) (index : nat) : Link :=
  {| href := src;
     download := "ai-fused-image-" +:+ showNat (index + 1) +:+ ".png" |}.

End GeneratedImage.

(** ** The component [App] *)

Module App.

Definition setReferenceImage (v : option UploadedImage) (s : AppState)
  : AppState :=
  {| referenceImage := v; subjectImage := subjectImage s;
     generatedImages := generatedImages s; isLoading := isLoading s;
     error := error s; progressMessage := progressMessage s;
     aspectRatio := aspectRatio s |}.

Definition setSubjectImage (v : option UploadedImage) (s : AppState)
  : AppState :=
  {| referenceImage := referenceImage s; subjectImage := v;
     generatedImages := generatedImages s; isLoading := isLoading s;
     error := error s; progressMessage := progressMessage s;
     aspectRatio := aspectRatio s |}.

Definition setGeneratedImages (v : option (list string)) (s : AppState)
  : AppState :=
  {| referenceImage := referenceImage s; subjectImage := subjectImage s;
     generatedImages := v; isLoading := isLoading s;
     error := error s; progressMessage := progressMessage s;
     aspectRatio := aspectRatio s |}.

Definition setIsLoading (v : bool) (s : AppState) : AppState :=
  {| referenceImage := referenceImage s; subjectImage := subjectImage s;
     generatedImages := generatedImages s; isLoading := v;
     error := error s; progressMessage := progressMessage s;
     aspectRatio := aspectRatio s |}.

Definition setError (v : option string) (s : AppState) : AppState :=
  {| referenceImage := referenceImage s; subjectImage := subjectImage s;
     generatedImages := generatedImages s; isLoading := isLoading s;
     error := v; progressMessage := progressMessage s;
     aspectRatio := aspectRatio s |}.

Definition setProgressMessage (v : string) (s : AppState) : AppState :=
  {| referenceImage := referenceImage s; subjectImage := subjectImage s;
     generatedImages := generatedImages s; isLoading := isLoading s;
     error := error s; progressMessage := v;
     aspectRatio := aspectRatio s |}.

(** [fileToBase64]: the promise resolves with the second piece of the
    reader's result cut at its commas ([undefined] when there is no comma),
    and rejects with the reader's error event. *)
Definition fileToBase64 (w : World) (f : File) : Task MaybeString :=
  emit (EvReadFile f);;
  match readAsDataURL w f with
  | Loaded result => mret (split "," result !! 1)
  | ReadFailed => throw NonError
  end.

Definition handleReferenceImageUpload (w : World) (f : File) : Task unit :=
  modifyApp (setReferenceImage
               (Some {| file := f; url := createObjectURL w f |}));;
  modifyApp (setGeneratedImages None);;
  modifyApp (setError None).

Definition handleSubjectImageUpload (w : World) (f : File) : Task unit :=
  modifyApp (setSubjectImage
               (Some {| file := f; url := createObjectURL w f |}));;
  modifyApp (setGeneratedImages None);;
  modifyApp (setError None).

Definition validationMessage : string :=
  "Please upload both a reference and a subject image.".

Definition step1Message : string :=
  "Step 1/2: Analyzing reference image for style...".

Definition step2Message : string :=
  "Step 2/2: Fusing images and generating 4 new versions...".

Definition unknownErrorMessage : string :=
  "An unknown error occurred during image generation.".

Definition pngDataUrl (base64 : string) : string :=
  "data:image/png;base64," +:+ base64.

(** [err instanceof Error ? err.message : "An unknown error ..."]. *)
Definition messageOf (err : Thrown) : string :=
  match err with
  | ErrorObj m => m
  | NonError => unknownErrorMessage
  end.

(** [handleGenerateClick].  The images and the aspect ratio are those of
    the render in which the handler was created, the state at the click. *)
Definition handleGenerateClick (w : World) : Task unit :=
  s ← getApp;
  match referenceImage s, subjectImage s with
  | Some reference, Some subject =>
      modifyApp (setIsLoading true);;
      modifyApp (setError None);;
      modifyApp (setGeneratedImages None);;
      try_finally
        (try_catch
           (modifyApp (setProgressMessage step1Message);;
            referenceImageBase64 ← await (fileToBase64 w (file reference));
            stylePrompt ←
              await (Service.generatePromptFromImage w referenceImageBase64
                       (type (file reference)));
            modifyApp (setProgressMessage step2Message);;
            subjectImageBase64 ← await (fileToBase64 w (file subject));
            newImageBase64Array ←
              await (Service.generateFusedImages w stylePrompt
                       subjectImageBase64 (type (file subject))
                       (aspectRatio s));
            modifyApp (setGeneratedImages
                         (Some (map pngDataUrl newImageBase64Array))))
           (fun err =>
              consoleError "handleGenerateClick";;
              modifyApp (setError (Some (messageOf err)))))
        (modifyApp (setIsLoading false);;
         modifyApp (setProgressMessage EmptyString))
  | _, _ =>
      modifyApp (setError (Some validationMessage))
  end.

(** The file input of an upload widget wired to a handler of [App]. *)
Definition uploaderChange (onImageUpload : File -> Task unit)
    (files : option (list File)) : Task unit :=
  match ImageUploader.handleFileChange files with
  | Some f => onImageUpload f
  | None => mret tt
  end.

(** Running a handler from a state, with an empty log. *)
Definition run {A : Type} (t : Task A) (s : AppState)
  : Completion A * Machine :=
  t {| app := s; log := [] |}.

End App.

(** ** Reading the log and the state *)

Definition isStyleCall (ev : Event) : bool :=
  match ev with EvStyleCall _ => true | _ => false end.

Definition isFusionCall (ev : Event) : bool :=
  match ev with EvFusionCall _ _ => true | _ => false end.

(** The calls that reach the remote service. *)
Definition remoteCalls (l : list Event) : list Event :=
  List.filter (fun ev => isStyleCall ev || isFusionCall ev) l.

(** The fusion calls of a log, in the order of issue. *)
Definition fusionCalls (l : list Event) : list (nat * FusionRequest) :=
  omap (fun ev => match ev with
                  | EvFusionCall i req => Some (i, req)
                  | _ => None
                  end) l.

(** The states in which the component was shown while a handler was
    suspended. *)
Definition shown (l : list Event) : list AppState :=
  omap (fun ev => match ev with EvSuspend s => Some s | _ => None end) l.

(** The states a run of [handleGenerateClick] goes through: after its
    first three updates, in each of its two steps, and once its [finally]
    block has run on the state [s']. *)
Definition started (s : AppState) : AppState :=
  App.setGeneratedImages None (App.setError None (App.setIsLoading true s)).

Definition phase1 (s : AppState) : AppState :=
  App.setProgressMessage App.step1Message (started s).

Definition phase2 (s : AppState) : AppState :=
  App.setProgressMessage App.step2Message (phase1 s).

Definition finished (s' : AppState) : AppState :=
  App.setProgressMessage EmptyString (App.setIsLoading false s').

(** The phases of a run, read off the state cells. *)
Definition awaitingFusion (s : AppState) : Prop :=
  isLoading s = true /\ progressMessage s = App.step2Message.

Definition failedWith (reason : string) (s : AppState) : Prop :=
  isLoading s = false /\ error s = Some reason /\ generatedImages s = None.

Definition succeededWith (images : list string) (s : AppState) : Prop :=
  isLoading s = false /\ error s = None /\ generatedImages s = Some images.

(** A monitor for the order of the remote calls: a fusion call is allowed
    only once a style response has arrived. *)
Fixpoint fusionGuarded (analysed : bool) (l : list Event) : bool :=
  match l with
  | [] => true
  | EvStyleFulfilled _ :: l' => fusionGuarded true l'
  | EvFusionCall _ _ :: l' => analysed && fusionGuarded analysed l'
  | _ :: l' => fusionGuarded analysed l'
  end.

(** ** Data URLs and the style schema *)

Definition noComma (s : string) : bool :=
  forallb (fun c => negb (Ascii.eqb c ",")) (String.list_ascii_of_string s).

(** The result of [readAsDataURL] for a file of media type [mime] whose
    content encodes to [payload]. *)
Definition dataUrl (mime payload : string) : string :=
  "data:" +:+ mime +:+ ";base64," +:+ payload.

(** [contains needle hay]: [needle] occurs in [hay]. *)
Fixpoint contains (needle hay : string) : bool :=
  String.prefix needle hay ||
  match hay with
  | EmptyString => false
  | String _ rest => contains needle rest
  end.

Definition quoted (k : string) : string :=
  String "034" (k +:+ String "034" EmptyString).

(** Follows the spec's words on the style schema: a response has a
    required field only if the quoted name of the field occurs in its
    text; a text in which the name of one of the six fields does not occur
    is missing that field. *)
Definition missingRequiredField (responseText : string) : bool :=
  negb (forallb (fun k => contains (quoted k) responseText)
          Service.requiredFields).


(** ** Tactics for running a handler *)

Ltac run_open :=
  unfold App.run, App.handleGenerateClick, await, try_finally, try_catch,
    modifyApp, getApp, consoleError, emit, mbind, mret, task_bind, task_ret;
  cbn [app log].

(** [H : ev ∈ l] for an explicit log [l] none of whose events is built
    like [ev]. *)
Ltac absent_from_log H :=
  repeat (apply elem_of_cons in H as [H|H]; [discriminate H|]);
  apply elem_of_nil in H; exact H.

(** ** Sample worlds *)

Module Sample.

Definition referenceFile : File := {| name := "reference.jpg"; type := "image/jpeg" |}.
Definition subjectFile : File := {| name := "subject.png"; type := "image/png" |}.
Definition notesFile : File := {| name := "notes.txt"; type := "text/plain" |}.

Definition bothUploaded : AppState :=
  {| referenceImage := Some {| file := referenceFile; url := "blob:reference" |};
     subjectImage := Some {| file := subjectFile; url := "blob:subject" |};
     generatedImages := Some ["data:image/png;base64,b2xk"];
     isLoading := false;
     error := Some "an earlier failure";
     progressMessage := EmptyString;
     aspectRatio := "16:9" |}.

Definition onlyReference : AppState :=
  {| referenceImage := Some {| file := referenceFile; url := "blob:reference" |};
     subjectImage := None;
     generatedImages := None;
     isLoading := false;
     error := None;
     progressMessage := EmptyString;
     aspectRatio := "1:1" |}.

(** A response made of a text part followed by an image part. *)
Definition imageResponse (mime payload : string) : FusionResponse :=
  {| parts := Some
       [ {| part_text := Some "Here is the image."; inlineData := None |};
         {| part_text := None;
            inlineData := Some {| inline_mimeType := mime;
                                  inline_data := payload |} |} ] |}.

Definition textOnlyResponse : FusionResponse :=
  {| parts := Some [ {| part_text := Some "I cannot help with that.";
                        inlineData := None |} ] |}.

Definition fullStyle : string :=
  "{" +:+ quoted "style" +:+ ":" +:+ quoted "anime" +:+ ","
      +:+ quoted "subject" +:+ ":" +:+ quoted "a cat" +:+ ","
      +:+ quoted "composition" +:+ ":" +:+ quoted "centered" +:+ ","
      +:+ quoted "lighting" +:+ ":" +:+ quoted "soft" +:+ ","
      +:+ quoted "colors" +:+ ":" +:+ quoted "warm" +:+ ","
      +:+ quoted "mood" +:+ ":" +:+ quoted "serene" +:+ "}".

(** A style response that has the field [style] and none of the other
    five. *)
Definition partialStyle : string :=
  "{" +:+ quoted "style" +:+ ":" +:+ quoted "anime" +:+ "}".

(** The [i]-th fusion call yields a JPEG whose payload is [IMG<i>]. *)
Definition happy (styleText : string) (order : list nat) : World :=
  {| createObjectURL := fun f => "blob:" +:+ name f;
     readAsDataURL := fun f => Loaded (dataUrl (type f) "QUJD");
     styleModel := fun _ => Fulfilled {| text := styleText |};
     imageModel := fun i _ =>
       Fulfilled (imageResponse "image/jpeg" ("IMG" +:+ showNat i));
     completion := order |}.

(** The third call answers with text only; it settles first. *)
Definition thirdFails : World :=
  {| createObjectURL := fun f => "blob:" +:+ name f;
     readAsDataURL := fun f => Loaded (dataUrl (type f) "QUJD");
     styleModel := fun _ => Fulfilled {| text := fullStyle |};
     imageModel := fun i _ =>
       if Nat.eqb i 2 then Fulfilled textOnlyResponse
       else Fulfilled (imageResponse "image/png" ("IMG" +:+ showNat i));
     completion := [2; 3; 1; 0] |}.

(** The style call is refused. *)
Definition styleBlocked : World :=
  {| createObjectURL := fun f => "blob:" +:+ name f;
     readAsDataURL := fun f => Loaded (dataUrl (type f) "QUJD");
     styleModel := fun _ => Rejected (ErrorObj "blocked");
     imageModel := fun i _ =>
       Fulfilled (imageResponse "image/png" ("IMG" +:+ showNat i));
     completion := [0; 1; 2; 3] |}.

(** The reader fails on every file. *)
Definition unreadable : World :=
  {| createObjectURL := fun f => "blob:" +:+ name f;
     readAsDataURL := fun _ => ReadFailed;
     styleModel := fun _ => Fulfilled {| text := fullStyle |};
     imageModel := fun i _ =>
       Fulfilled (imageResponse "image/png" ("IMG" +:+ showNat i));
     completion := [0; 1; 2; 3] |}.

(** The fusion request built from [fullStyle] for the subject file of the
    sample worlds and the aspect ratio 16:9. *)
Definition request169 : FusionRequest :=
  Service.fusionRequest fullStyle (Some "QUJD") "image/png" "16:9".

End Sample.

(** ** What [App] renders

    The conditions and texts of the JSX of [App], as functions of the
    state. *)

Module View.

(** [disabled={!referenceImage || !subjectImage || isLoading}]. *)
Definition generateDisabled (s : AppState) : bool :=
  negb (bool_decide (is_Some (referenceImage s)))
  || negb (bool_decide (is_Some (subjectImage s)))
  || isLoading s.

(** The label of the trigger. *)
Definition generateLabel (s : AppState) : string :=
  if isLoading s then "Generating..."
  else "Fuse Images & Generate 4 Versions".

(** [{isLoading && ...}]: the spinner, with the progress label under it. *)
Definition spinner (s : AppState) : option string :=
  if isLoading s then Some (progressMessage s) else None.

(** [{error && ...}]: the error box; [null] and the empty string are both
    falsy. *)
Definition errorBox (s : AppState) : option string :=
  match error s with
  | Some (String c rest) => Some (String c rest)
  | Some EmptyString => None
  | None => None
  end.

(** The props of one [GeneratedImage]. *)
Record Tile : Type := mkTile {
  src : string;
  alt : string;
  index : nat
}.

(** [{generatedImages && !isLoading && ...}]: the gallery, one tile per
    image. *)
Definition gallery (s : AppState) : option (list Tile) :=
  match generatedImages s with
  | Some images =>
      if isLoading s then None
      else Some (imap (fun index src =>
                         {| src := src;
                            alt := "AI Generated Fusion Image "
                                   +:+ showNat (index + 1);
                            index := index |}) images)
  | None => None
  end.

(** The values of the options of the aspect-ratio select. *)
Definition aspectOptions : list string :=
  ["1:1"; "4:3"; "3:4"; "16:9"; "9:16"].

Definition setAspectRatio (v : string) (s : AppState) : AppState :=
  {| referenceImage := referenceImage s; subjectImage := subjectImage s;
     generatedImages := generatedImages s; isLoading := isLoading s;
     error := error s; progressMessage := progressMessage s;
     aspectRatio := v |}.

End View.

(** ** Events of the page

    What a user can do: pick files in either upload widget, choose the
    [i]-th option of the aspect-ratio select, press the trigger. *)

Inductive UiEvent : Type :=
| PickReference (files : option (list File))
| PickSubject (files : option (list File))
| ChooseAspect (i : nat)
| ClickGenerate.

Definition handleEvent (w : World) (ev : UiEvent) : Task unit :=
  match ev with
  | PickReference files =>
      App.uploaderChange (App.handleReferenceImageUpload w) files
  | PickSubject files =>
      App.uploaderChange (App.handleSubjectImageUpload w) files
  | ChooseAspect i =>
      match View.aspectOptions !! i with
      | Some v => modifyApp (View.setAspectRatio v)
      | None => mret tt
      end
  | ClickGenerate => App.handleGenerateClick w
  end.

(** The states of the page between two events, when every handler has run
    to completion before the next event; the world may differ from one
    event to the next. *)
Inductive reachable : AppState -> Prop :=
| reachable_initial : reachable initialState
| reachable_event s w ev m :
    reachable s ->
    App.run (handleEvent w ev) s = (Returned tt, m) ->
    reachable (app m).

(** The messages that [App] can put in its error cell. *)
Definition errorMessages : list string :=
  [App.validationMessage; App.unknownErrorMessage;
   Service.styleFailedMessage; Service.fusionFailedMessage].

(** What holds of the page between two events. *)
Record at_rest (s : AppState) : Prop := mkAtRest {
  rest_idle : isLoading s = false;
  rest_label : progressMessage s = EmptyString;
  rest_aspect : aspectRatio s ∈ View.aspectOptions;
  rest_reference : forall u,
    referenceImage s = Some u -> startsWith "image/" (type (file u)) = true;
  rest_subject : forall u,
    subjectImage s = Some u -> startsWith "image/" (type (file u)) = true;
  rest_error : forall msg, error s = Some msg -> msg ∈ errorMessages;
  rest_results : forall images,
    generatedImages s = Some images ->
    error s = None
    /\ is_Some (referenceImage s) /\ is_Some (subjectImage s)
    /\ length images = 4
    /\ Forall (fun src => startsWith "data:image/png;base64," src = true)
         images
}.

Definition isReadFile (ev : Event) : bool :=
  match ev with EvReadFile _ => true | _ => false end.

(** The media types of the images sent to the remote service in a log. *)
Definition sentMediaTypes (l : list Event) : list string :=
  omap (fun ev => match ev with
                  | EvStyleCall req => Some (mimeType (style_image req))
                  | EvFusionCall _ req => Some (mimeType (fusion_image req))
                  | _ => None
                  end) l.

(** More sample worlds. *)
Module Sample2.

Import Sample.

(** The last fusion call never settles. *)
Definition lastHangs : World :=
  {| createObjectURL := fun f => "blob:" +:+ name f;
     readAsDataURL := fun f => Loaded (dataUrl (type f) "QUJD");
     styleModel := fun _ => Fulfilled {| text := fullStyle |};
     imageModel := fun i _ =>
       Fulfilled (imageResponse "image/png" ("IMG" +:+ showNat i));
     completion := [1; 0; 2] |}.

(** The reader yields text without any comma. *)
Definition bareReader : World :=
  {| createObjectURL := fun f => "blob:" +:+ name f;
     readAsDataURL := fun _ => Loaded "QUJD";
     styleModel := fun _ => Fulfilled {| text := fullStyle |};
     imageModel := fun i _ =>
       Fulfilled (imageResponse "image/png" ("IMG" +:+ showNat i));
     completion := [0; 1; 2; 3] |}.

(** The state after both uploads of the sample files in [happy]. *)
Definition afterUploads : AppState :=
  {| referenceImage :=
       Some {| file := referenceFile; url := "blob:reference.jpg" |};
     subjectImage :=
       Some {| file := subjectFile; url := "blob:subject.png" |};
     generatedImages := None;
     isLoading := false;
     error := None;
     progressMessage := EmptyString;
     aspectRatio := "1:1" |}.

(** The state after the upload of the reference file alone. *)
Definition afterReference : AppState :=
  {| referenceImage :=
       Some {| file := referenceFile; url := "blob:reference.jpg" |};
     subjectImage := None;
     generatedImages := None;
     isLoading := false;
     error := None;
     progressMessage := EmptyString;
     aspectRatio := "1:1" |}.

(** The reader appends a second comma and more text to the data URL. *)
Definition trailingReader : World :=
  {| createObjectURL := fun f => "blob:" +:+ name f;
     readAsDataURL := fun f => Loaded (dataUrl (type f) "QUJD" +:+ ",tail");
     styleModel := fun _ => Fulfilled {| text := fullStyle |};
     imageModel := fun i _ =>
       Fulfilled (imageResponse "image/png" ("IMG" +:+ showNat i));
     completion := [0; 1; 2; 3] |}.

(** A reply without candidates: there is no parts list to scan. *)
Definition noCandidates : FusionResponse := {| parts := None |}.

(** Every fusion call is answered by [noCandidates]. *)
Definition emptyReplies : World :=
  {| createObjectURL := fun f => "blob:" +:+ name f;
     readAsDataURL := fun f => Loaded (dataUrl (type f) "QUJD");
     styleModel := fun _ => Fulfilled {| text := fullStyle |};
     imageModel := fun _ _ => Fulfilled noCandidates;
     completion := [0; 1; 2; 3] |}.

End Sample2.

(** * Properties *)

(** ** [Promise.all] *)

Section PromiseAllFacts.
Context {A : Type}.
Implicit Types (ps : list (Settled A)) (st : @AllState A).
Implicit Types (l : list (option A)) (xs : list A).

Lemma omap_id_Some xs : omap id (Some <$> xs) = xs.
Proof. induction xs as [|x xs IH]; csimpl; [done | by f_equal]. Qed.

Lemma omap_id_length l : length (omap id l) <= length l.
Proof. induction l as [|[x|] l IH]; csimpl; lia. Qed.

Lemma omap_id_insert l i v :
  l !! i = Some None ->
  length (omap id (<[i := Some v]> l)) = S (length (omap id l)).
Proof.
  revert i. induction l as [|o l IH]; intros [|i] Hi; csimpl in *.
  - done.
  - done.
  - by simplify_eq.
  - destruct o; csimpl; rewrite (IH i Hi); done.
Qed.

Lemma omap_id_hole l k :
  l !! k = Some None -> length (omap id l) < length l.
Proof.
  revert k. induction l as [|o l IH]; intros [|k] Hk; csimpl in *.
  - done.
  - done.
  - simplify_eq. csimpl. pose proof (omap_id_length l). lia.
  - apply IH in Hk. destruct o; csimpl; lia.
Qed.

Lemma omap_id_full l :
  length (omap id l) = length l -> l = Some <$> omap id l.
Proof.
  induction l as [|[x|] l IH]; csimpl; intros Hlen.
  - done.
  - f_equal. apply IH. lia.
  - pose proof (omap_id_length l). lia.
Qed.

Lemma omap_id_all_stored l :
  (forall j, j < length l -> exists v, l !! j = Some (Some v)) ->
  length (omap id l) = length l.
Proof.
  induction l as [|o l IH]; csimpl; intros Hall; [done|].
  destruct (Hall 0) as [v Hv]; [lia|]. csimpl in Hv. simplify_eq. csimpl.
  f_equal. apply IH. intros j Hj. apply (Hall (S j)). lia.
Qed.

Lemma fmap_Fulfilled_inj xs ys :
  @Fulfilled A <$> xs = Fulfilled <$> ys -> xs = ys.
Proof.
  revert ys. induction xs as [|x xs IH]; intros [|y ys] Heq; simplify_eq/=.
  - done.
  - f_equal. by apply IH.
Qed.

Lemma all_init_inv ps : all_inv ps (all_init (length ps)).
Proof.
  split; simpl.
  - apply length_replicate.
  - assert (Hnone : forall n, omap id (replicate n (@None A)) = []).
    { intros n. induction n as [|n IH]; simpl; done. }
    rewrite Hnone. simpl. lia.
  - intros j v Hj. apply lookup_replicate in Hj as [? _]. done.
  - destruct (length ps) as [|n] eqn:Hn; simpl; [done | lia].
Qed.

Lemma all_step_settled ps st i r :
  result st = Some r -> all_step ps st i = st.
Proof. intros Hr. unfold all_step. by rewrite Hr. Qed.

Lemma all_run_settled ps order st r :
  result st = Some r -> foldl (all_step ps) st order = st.
Proof.
  revert st. induction order as [|i order IH]; intros st Hr; simpl; [done|].
  rewrite (all_step_settled _ _ _ _ Hr). by apply IH.
Qed.

Lemma all_step_inv ps st i : all_inv ps st -> all_inv ps (all_step ps st i).
Proof.
  intros [Hlen Hcount Hstored Hres]. unfold all_step.
  destruct (result st) as [r|] eqn:Hr; [by split; rewrite ?Hr|].
  destruct (ps !! i) as [[v|e]|] eqn:Hp; [| |by split; rewrite ?Hr].
  - destruct (values st !! i) as [[v'|]|] eqn:Hv; [by split; rewrite ?Hr| |by split; rewrite ?Hr].
    pose proof (omap_id_insert _ _ v Hv) as Hins.
    split; simpl.
    + by rewrite length_insert.
    + rewrite Hins. lia.
    + intros j w Hj. destruct (decide (i = j)) as [->|Hne].
      * rewrite list_lookup_insert_eq in Hj; [by simplify_eq|].
        by eapply lookup_lt_Some.
      * rewrite list_lookup_insert_ne in Hj; [by apply Hstored | done].
    + destruct (Nat.eqb (Nat.pred (remaining st)) 0) eqn:Hz.
      * apply Nat.eqb_eq in Hz. done.
      * apply Nat.eqb_neq in Hz. lia.
  - split; simpl; eauto.
Qed.

Lemma all_run_inv ps order st :
  all_inv ps st -> all_inv ps (foldl (all_step ps) st order).
Proof.
  revert st. induction order as [|i order IH]; intros st Hinv; simpl; [done|].
  apply IH. by apply all_step_inv.
Qed.

Lemma all_step_keeps ps st i j v :
  values st !! j = Some (Some v) ->
  values (all_step ps st i) !! j = Some (Some v).
Proof.
  intros Hj. unfold all_step.
  destruct (result st); [done|].
  destruct (ps !! i) as [[w|e]|]; [|done|done].
  destruct (values st !! i) as [[w'|]|] eqn:Hv; [done| |done].
  simpl. rewrite list_lookup_insert_ne; [done|]. congruence.
Qed.

Lemma all_run_keeps ps order st j v :
  values st !! j = Some (Some v) ->
  values (foldl (all_step ps) st order) !! j = Some (Some v).
Proof.
  revert st. induction order as [|i order IH]; intros st Hj; simpl; [done|].
  apply IH. by apply all_step_keeps.
Qed.

Lemma all_run_pending ps order st :
  result (foldl (all_step ps) st order) = None -> result st = None.
Proof.
  intros Hend. destruct (result st) as [r|] eqn:Hr; [|done].
  rewrite (all_run_settled _ _ _ _ Hr) in Hend. congruence.
Qed.

(** While the result is pending, every promise that has settled with a
    value has its value stored. *)
Lemma all_run_stores ps order st i v :
  all_inv ps st ->
  i ∈ order ->
  ps !! i = Some (Fulfilled v) ->
  result (foldl (all_step ps) st order) = None ->
  exists w, values (foldl (all_step ps) st order) !! i = Some (Some w).
Proof.
  revert st. induction order as [|k order IH]; intros st Hinv Hi Hv Hend.
  { by apply elem_of_nil in Hi. }
  simpl in *. apply elem_of_cons in Hi as [<-|Hi].
  - pose proof (all_run_pending _ _ _ Hend) as Hmid.
    assert (exists w, values (all_step ps st i) !! i = Some (Some w))
      as [w Hw].
    { revert Hmid. unfold all_step.
      destruct (result st) eqn:Hr; [simpl; congruence|].
      rewrite Hv.
      destruct (values st !! i) as [[w|]|] eqn:Hs.
      - eauto.
      - intros _. exists v. simpl. apply list_lookup_insert_eq.
        by eapply lookup_lt_Some.
      - apply lookup_ge_None in Hs. apply lookup_lt_Some in Hv.
        rewrite (inv_length _ _ Hinv) in Hs. lia. }
    exists w. by apply all_run_keeps.
  - apply IH; [by apply all_step_inv|done|done|done].
Qed.

(** A fulfilled result is the list of the values of all the promises, in
    the order of the promises: whatever the order of settlement. *)
Lemma promise_all_fulfilled_inv ps order xs :
  promise_all ps order = Some (Fulfilled xs) -> ps = Fulfilled <$> xs.
Proof.
  unfold promise_all. intros Hres.
  pose proof (all_run_inv ps order _ (all_init_inv ps)) as Hinv.
  destruct Hinv as [Hlen Hcount Hstored Hr]. rewrite Hres in Hr.
  destruct Hr as [Hzero ->].
  set (st := foldl (all_step ps) (all_init (length ps)) order) in *.
  assert (Hfull : values st = Some <$> omap id (values st)).
  { apply omap_id_full. lia. }
  apply list_eq. intros j. rewrite list_lookup_fmap.
  destruct (omap id (values st) !! j) as [x|] eqn:Hx; simpl.
  - apply Hstored. rewrite Hfull, list_lookup_fmap, Hx. done.
  - apply lookup_ge_None in Hx. apply lookup_ge_None. lia.
Qed.

Lemma promise_all_rejected_inv ps order e :
  promise_all ps order = Some (Rejected e) ->
  exists k, ps !! k = Some (Rejected e).
Proof.
  unfold promise_all. intros Hres.
  pose proof (all_run_inv ps order _ (all_init_inv ps)) as Hinv.
  destruct Hinv as [_ _ _ Hr]. by rewrite Hres in Hr.
Qed.

(** When every promise fulfils and every promise settles, the result is
    the list of their values in the order of the promises. *)
Lemma promise_all_fulfils xs order :
  (forall i, i < length xs -> i ∈ order) ->
  promise_all (Fulfilled <$> xs) order = Some (Fulfilled xs).
Proof.
  intros Hcover.
  destruct (promise_all (Fulfilled <$> xs) order) as [[ys|e]|] eqn:Hres.
  - apply promise_all_fulfilled_inv in Hres.
    apply fmap_Fulfilled_inj in Hres. by subst.
  - apply promise_all_rejected_inv in Hres as [k Hk].
    rewrite list_lookup_fmap in Hk. destruct (xs !! k); done.
  - exfalso. unfold promise_all in Hres.
    pose proof (all_run_inv (Fulfilled <$> xs) order _
                  (all_init_inv _)) as Hinv.
    pose proof (fun i v => all_run_stores (Fulfilled <$> xs) order _ i v
                  (all_init_inv _)) as Hst.
    set (st := foldl _ _ order) in *.
    destruct Hinv as [Hlen Hcount _ Hr]. rewrite Hres in Hr.
    rewrite length_fmap in *.
    assert (length (omap id (values st)) = length (values st)); [|lia].
    apply omap_id_all_stored. intros j Hj.
    destruct (lookup_lt_is_Some_2 xs j) as [x Hx]; [lia|].
    apply (Hst j x); [apply Hcover; lia | | done].
    by rewrite list_lookup_fmap, Hx.
Qed.

(** When a promise that rejects has settled, the result is a rejection. *)
Lemma promise_all_rejects ps order k e :
  ps !! k = Some (Rejected e) ->
  k ∈ order ->
  exists e', promise_all ps order = Some (Rejected e').
Proof.
  intros Hk Hin.
  destruct (promise_all ps order) as [[xs|e']|] eqn:Hres.
  - apply promise_all_fulfilled_inv in Hres. subst ps.
    rewrite list_lookup_fmap in Hk. destruct (xs !! k); done.
  - eauto.
  - exfalso. unfold promise_all in Hres. revert Hres.
    generalize (all_init (A := A) (length ps)).
    induction order as [|i order IH]; intros st Hend.
    { by apply elem_of_nil in Hin. }
    simpl in Hend. apply elem_of_cons in Hin as [<-|Hin]; [|by eauto].
    pose proof (all_run_pending _ _ _ Hend) as Hmid.
    revert Hmid. unfold all_step. rewrite Hk.
    destruct (result st) eqn:Hr; simpl; congruence.
Qed.

End PromiseAllFacts.

(** ** The remote service module *)

Section ServiceFacts.
Variable w : World.

#[local] Arguments Service.finalPrompt : simpl never.

Lemma generatePromptFromImage_run imageBase64 mime m :
  Service.generatePromptFromImage w imageBase64 mime m =
  match styleModel w (Service.styleRequest imageBase64 mime) with
  | Fulfilled response =>
      (Returned (text response),
       {| app := app m;
          log := log m ++
                 [EvStyleCall (Service.styleRequest imageBase64 mime);
                  EvStyleFulfilled response] |})
  | Rejected e =>
      (Threw (ErrorObj Service.styleFailedMessage),
       {| app := app m;
          log := log m ++
                 [EvStyleCall (Service.styleRequest imageBase64 mime);
                  EvStyleRejected e;
                  EvConsoleError "Error generating prompt from image:"] |})
  end.
Proof.
  unfold Service.generatePromptFromImage, Service.callStyleModel, try_catch,
    consoleError, emit, throw, mbind, mret, task_bind, task_ret.
  destruct (styleModel w _) as [response|e]; cbn [app log];
    rewrite <- !app_assoc; reflexivity.
Qed.

Lemma generateFusedImages_run stylePrompt subj mime ar m :
  Service.generateFusedImages w stylePrompt subj mime ar m =
  match promise_all
          (Service.singleImageResult <$>
             [imageModel w 0 (Service.fusionRequest stylePrompt subj mime ar);
              imageModel w 1 (Service.fusionRequest stylePrompt subj mime ar);
              imageModel w 2 (Service.fusionRequest stylePrompt subj mime ar);
              imageModel w 3 (Service.fusionRequest stylePrompt subj mime ar)])
          (completion w) with
  | Some (Fulfilled images) =>
      (Returned images,
       {| app := app m;
          log := log m ++
            [EvFusionCall 0 (Service.fusionRequest stylePrompt subj mime ar);
             EvFusionCall 1 (Service.fusionRequest stylePrompt subj mime ar);
             EvFusionCall 2 (Service.fusionRequest stylePrompt subj mime ar);
             EvFusionCall 3 (Service.fusionRequest stylePrompt subj mime ar)] |})
  | Some (Rejected _) =>
      (Threw (ErrorObj Service.fusionFailedMessage),
       {| app := app m;
          log := log m ++
            [EvFusionCall 0 (Service.fusionRequest stylePrompt subj mime ar);
             EvFusionCall 1 (Service.fusionRequest stylePrompt subj mime ar);
             EvFusionCall 2 (Service.fusionRequest stylePrompt subj mime ar);
             EvFusionCall 3 (Service.fusionRequest stylePrompt subj mime ar);
             EvConsoleError "Error generating final images:"] |})
  | None =>
      (Pending,
       {| app := app m;
          log := log m ++
            [EvFusionCall 0 (Service.fusionRequest stylePrompt subj mime ar);
             EvFusionCall 1 (Service.fusionRequest stylePrompt subj mime ar);
             EvFusionCall 2 (Service.fusionRequest stylePrompt subj mime ar);
             EvFusionCall 3 (Service.fusionRequest stylePrompt subj mime ar)] |})
  end.
Proof.
  unfold Service.generateFusedImages, Service.generateSingleImage, try_catch,
    awaitAll, consoleError, emit, throw, settle, mbind, mret, task_bind,
    task_ret.
  cbn [app log fmap list_fmap]. rewrite <- !app_assoc.
  destruct (promise_all _ _) as [[images|e]|]; unfold throw; cbn [app log];
    rewrite <- ?app_assoc; reflexivity.
Qed.

(** The scan stops at the first part that carries inline data. *)
Lemma scanParts_first pre part d post :
  Forall (fun q => inlineData q = None) pre ->
  inlineData part = Some d ->
  Service.scanParts (pre ++ part :: post) = Fulfilled (inline_data d).
Proof.
  intros Hpre Hpart. induction Hpre as [|q pre Hq _ IH]; simpl.
  - by rewrite Hpart.
  - by rewrite Hq.
Qed.

Lemma scanParts_none ps :
  Forall (fun q => inlineData q = None) ps ->
  Service.scanParts ps = Rejected (ErrorObj Service.noImageMessage).
Proof.
  induction 1 as [|q ps Hq _ IH]; simpl; [done|]. by rewrite Hq.
Qed.

(** C7, as the code has it: the call [generateSingleImage()] issues its
    remote call and hands back a promise.  When the response has a parts
    list, the parts are scanned in order: the data of the first part that
    carries inline data is the result of the call, and when no part
    carries inline data the call fails with the no-image-data error.
    When the response has no parts list, the call fails as well, with the
    type error of the property access and not the no-image-data error. *)
Theorem generateSingleImage_first_inline_part req i m response :
  imageModel w i req = Fulfilled response ->
  exists outcome,
    Service.generateSingleImage w req i m
    = (Returned outcome,
       {| app := app m; log := log m ++ [EvFusionCall i req] |})
    /\ (forall ps,
          parts response = Some ps ->
          (forall (pre : list Part) part d post,
             ps = pre ++ part :: post ->
             Forall (fun q => inlineData q = None) pre ->
             inlineData part = Some d ->
             outcome = Fulfilled (inline_data d))
          /\ (Forall (fun q => inlineData q = None) ps ->
              outcome = Rejected (ErrorObj Service.noImageMessage)))
    /\ (parts response = None -> outcome = Rejected undefinedAccess).
Proof.
  intros Hreply.
  exists (Service.singleImageResult (Fulfilled response)). split.
  - unfold Service.generateSingleImage, emit, mbind, mret, task_bind,
      task_ret. cbn [app log]. by rewrite Hreply.
  - unfold Service.singleImageResult. split.
    + intros ps ->. split.
      * intros pre part d post -> Hpre Hpart. by apply scanParts_first.
      * apply scanParts_none.
    + by intros ->.
Qed.

(** C1: when the four fusion calls succeed (and each has settled), the
    result of [generateFusedImages] is the list of exactly their four
    payloads, in the order in which the calls were issued, whatever the
    order in which they settled. *)
Theorem generateFusedImages_four_in_issue_order
    stylePrompt subj mime ar m d0 d1 d2 d3 :
  Service.singleImageResult
    (imageModel w 0 (Service.fusionRequest stylePrompt subj mime ar))
  = Fulfilled d0 ->
  Service.singleImageResult
    (imageModel w 1 (Service.fusionRequest stylePrompt subj mime ar))
  = Fulfilled d1 ->
  Service.singleImageResult
    (imageModel w 2 (Service.fusionRequest stylePrompt subj mime ar))
  = Fulfilled d2 ->
  Service.singleImageResult
    (imageModel w 3 (Service.fusionRequest stylePrompt subj mime ar))
  = Fulfilled d3 ->
  (forall i, i < 4 -> i ∈ completion w) ->
  Service.generateFusedImages w stylePrompt subj mime ar m =
  (Returned [d0; d1; d2; d3],
   {| app := app m;
      log := log m ++
        [EvFusionCall 0 (Service.fusionRequest stylePrompt subj mime ar);
         EvFusionCall 1 (Service.fusionRequest stylePrompt subj mime ar);
         EvFusionCall 2 (Service.fusionRequest stylePrompt subj mime ar);
         EvFusionCall 3 (Service.fusionRequest stylePrompt subj mime ar)] |}).
Proof.
  intros H0 H1 H2 H3 Hsettled. rewrite generateFusedImages_run.
  cbn [fmap list_fmap]. rewrite H0, H1, H2, H3.
  pose proof (promise_all_fulfils [d0; d1; d2; d3] (completion w) Hsettled)
    as Hall.
  cbn [fmap list_fmap] in Hall. rewrite Hall. reflexivity.
Qed.

(** A success of [generateFusedImages] carries the payloads of all four
    calls, whatever the order of settlement. *)
Lemma generateFusedImages_returned stylePrompt subj mime ar m images :
  (Service.generateFusedImages w stylePrompt subj mime ar m).1
  = Returned images ->
  Fulfilled <$> images
  = Service.singleImageResult <$>
      [imageModel w 0 (Service.fusionRequest stylePrompt subj mime ar);
       imageModel w 1 (Service.fusionRequest stylePrompt subj mime ar);
       imageModel w 2 (Service.fusionRequest stylePrompt subj mime ar);
       imageModel w 3 (Service.fusionRequest stylePrompt subj mime ar)].
Proof.
  rewrite generateFusedImages_run.
  destruct (promise_all _ _) as [[xs|e]|] eqn:Hall; simpl; intros Hret;
    simplify_eq.
  by apply promise_all_fulfilled_inv in Hall.
Qed.

(** C2: when one of the four fusion calls fails, [generateFusedImages]
    never returns images, and once the failing call has settled it fails
    with the single fusion-failed error. *)
Theorem generateFusedImages_all_or_nothing
    stylePrompt subj mime ar m k e :
  k < 4 ->
  Service.singleImageResult
    (imageModel w k (Service.fusionRequest stylePrompt subj mime ar))
  = Rejected e ->
  (forall images,
     (Service.generateFusedImages w stylePrompt subj mime ar m).1
     <> Returned images)
  /\ (k ∈ completion w ->
      (Service.generateFusedImages w stylePrompt subj mime ar m).1
      = Threw (ErrorObj Service.fusionFailedMessage)).
Proof.
  intros Hk Hfail.
  assert (Hlook :
    (Service.singleImageResult <$>
       [imageModel w 0 (Service.fusionRequest stylePrompt subj mime ar);
        imageModel w 1 (Service.fusionRequest stylePrompt subj mime ar);
        imageModel w 2 (Service.fusionRequest stylePrompt subj mime ar);
        imageModel w 3 (Service.fusionRequest stylePrompt subj mime ar)])
    !! k = Some (Rejected e)).
  { destruct k as [|[|[|[|k]]]]; [by rewrite <- Hfail ..|lia]. }
  split.
  - intros images Hret. apply generateFusedImages_returned in Hret.
    rewrite <- Hret, list_lookup_fmap in Hlook.
    destruct (images !! k); done.
  - intros Hsettled. rewrite generateFusedImages_run.
    destruct (promise_all_rejects _ _ _ _ Hlook Hsettled) as [e' ->].
    reflexivity.
Qed.

End ServiceFacts.

(** ** Strings: cutting a data URL at its commas *)

Lemma split_prefix a rest hd tl :
  noComma a = true ->
  split "," rest = hd :: tl ->
  split "," (a +:+ rest) = (a +:+ hd) :: tl.
Proof.
  unfold noComma. intros Ha Hrest.
  induction a as [|c a IH]; simpl in *; [done|].
  apply andb_prop in Ha as [Hc Ha]. apply negb_true_iff in Hc.
  by rewrite Hc, (IH Ha).
Qed.

Lemma split_noComma s : noComma s = true -> split "," s = [s].
Proof.
  unfold noComma. induction s as [|c s IH]; simpl; intros Hs; [done|].
  apply andb_prop in Hs as [Hc Hs]. apply negb_true_iff in Hc.
  by rewrite Hc, (IH Hs).
Qed.

Lemma split_dataUrl mime payload :
  noComma mime = true -> noComma payload = true ->
  split "," (dataUrl mime payload) !! 1 = Some payload.
Proof.
  intros Hmime Hpayload. unfold dataUrl.
  assert (Htail : split "," (";base64," +:+ payload) = [";base64"; payload]).
  { change (";base64," +:+ payload) with (";base64" +:+ String "," payload).
    rewrite (split_prefix ";base64" (String "," payload) EmptyString
               [payload]); [reflexivity | reflexivity |].
    simpl. by rewrite (split_noComma payload). }
  rewrite (split_prefix "data:" _ (mime +:+ ";base64") [payload]);
    [reflexivity | reflexivity |].
  by apply split_prefix.
Qed.


Lemma startsWith_append p x : startsWith p (p +:+ x) = true.
Proof.
  unfold startsWith. induction p as [|c p IH]; simpl.
  - by destruct x.
  - destruct (ascii_dec c c); [exact IH | done].
Qed.

(** ** The component [App] *)

Section AppFacts.
Variable w : World.

#[local] Arguments Service.finalPrompt : simpl never.
#[local] Arguments promise_all : simpl never.
#[local] Arguments Service.singleImageResult : simpl never.
#[local] Arguments Js.split : simpl never.
#[local] Arguments App.pngDataUrl : simpl never.

Lemma fileToBase64_run f m :
  App.fileToBase64 w f m =
  match readAsDataURL w f with
  | Loaded result =>
      (Returned (split "," result !! 1),
       {| app := app m; log := log m ++ [EvReadFile f] |})
  | ReadFailed =>
      (Threw NonError, {| app := app m; log := log m ++ [EvReadFile f] |})
  end.
Proof.
  unfold App.fileToBase64, emit, throw, mbind, mret, task_bind, task_ret.
  destruct (readAsDataURL w f); reflexivity.
Qed.

(** The whole run of [handleGenerateClick], by cases on what the reader,
    the style model and the four fusion promises do. *)
Lemma handleGenerateClick_run s :
  App.run (App.handleGenerateClick w) s =
  match referenceImage s, subjectImage s with
  | Some reference, Some subject =>
      let read1 := [EvSuspend (phase1 s); EvReadFile (file reference)] in
      match readAsDataURL w (file reference) with
      | ReadFailed =>
          (Returned tt,
           {| app := finished (App.setError (Some App.unknownErrorMessage)
                                 (phase1 s));
              log := read1 ++ [EvConsoleError "handleGenerateClick"] |})
      | Loaded r1 =>
          let req1 :=
            Service.styleRequest (split "," r1 !! 1) (type (file reference)) in
          let call1 := read1 ++ [EvSuspend (phase1 s); EvStyleCall req1] in
          match styleModel w req1 with
          | Rejected e =>
              (Returned tt,
               {| app := finished
                           (App.setError (Some Service.styleFailedMessage)
                              (phase1 s));
                  log := call1 ++
                    [EvStyleRejected e;
                     EvConsoleError "Error generating prompt from image:";
                     EvConsoleError "handleGenerateClick"] |})
          | Fulfilled response =>
              let read2 :=
                call1 ++ [EvStyleFulfilled response; EvSuspend (phase2 s);
                          EvReadFile (file subject)] in
              match readAsDataURL w (file subject) with
              | ReadFailed =>
                  (Returned tt,
                   {| app := finished
                               (App.setError (Some App.unknownErrorMessage)
                                  (phase2 s));
                      log := read2 ++
                             [EvConsoleError "handleGenerateClick"] |})
              | Loaded r2 =>
                  let req2 :=
                    Service.fusionRequest (text response) (split "," r2 !! 1)
                      (type (file subject)) (aspectRatio s) in
                  let call2 :=
                    read2 ++
                    [EvSuspend (phase2 s); EvFusionCall 0 req2;
                     EvFusionCall 1 req2; EvFusionCall 2 req2;
                     EvFusionCall 3 req2] in
                  match promise_all
                          (Service.singleImageResult <$>
                             [imageModel w 0 req2; imageModel w 1 req2;
                              imageModel w 2 req2; imageModel w 3 req2])
                          (completion w) with
                  | Some (Fulfilled images) =>
                      (Returned tt,
                       {| app := finished
                                   (App.setGeneratedImages
                                      (Some (map App.pngDataUrl images))
                                      (phase2 s));
                          log := call2 |})
                  | Some (Rejected _) =>
                      (Returned tt,
                       {| app := finished
                                   (App.setError
                                      (Some Service.fusionFailedMessage)
                                      (phase2 s));
                          log := call2 ++
                            [EvConsoleError "Error generating final images:";
                             EvConsoleError "handleGenerateClick"] |})
                  | None => (Pending, {| app := phase2 s; log := call2 |})
                  end
              end
          end
      end
  | _, _ =>
      (Returned tt,
       {| app := App.setError (Some App.validationMessage) s; log := [] |})
  end.
Proof.
  run_open.
  destruct (referenceImage s) as [reference|]; [|reflexivity].
  destruct (subjectImage s) as [subject|]; [|reflexivity].
  cbn [app log]. rewrite fileToBase64_run.
  destruct (readAsDataURL w (file reference)) as [r1|]; [|reflexivity].
  cbn [app log]. rewrite generatePromptFromImage_run.
  destruct (styleModel w _) as [response|e]; [|reflexivity].
  cbn [app log]. rewrite fileToBase64_run.
  destruct (readAsDataURL w (file subject)) as [r2|]; [|reflexivity].
  cbn [app log]. rewrite generateFusedImages_run.
  destruct (promise_all _ _) as [[images|e]|]; reflexivity.
Qed.

(** C4: when the reference image or the subject image is absent, the
    handler only records the validation error: it completes without ever
    suspending, nothing leaves the application (no file read, no remote
    call), and no run is started: the loading flag, the progress label,
    the images and the results are as they were. *)
Theorem handleGenerateClick_missing_image s :
  referenceImage s = None \/ subjectImage s = None ->
  App.run (App.handleGenerateClick w) s
  = (Returned tt,
     {| app := App.setError (Some App.validationMessage) s; log := [] |})
  /\ remoteCalls (log (App.run (App.handleGenerateClick w) s).2) = []
  /\ shown (log (App.run (App.handleGenerateClick w) s).2) = []
  /\ isLoading (app (App.run (App.handleGenerateClick w) s).2) = isLoading s
  /\ progressMessage (app (App.run (App.handleGenerateClick w) s).2)
     = progressMessage s
  /\ error (app (App.run (App.handleGenerateClick w) s).2)
     = Some App.validationMessage.
Proof.
  intros Hmissing.
  assert (Hrun : App.run (App.handleGenerateClick w) s
                 = (Returned tt,
                    {| app := App.setError (Some App.validationMessage) s;
                       log := [] |})).
  { rewrite handleGenerateClick_run.
    destruct Hmissing as [-> | ->]; [done|].
    by destruct (referenceImage s). }
  rewrite Hrun. done.
Qed.

(** The states shown during a run carry neither results nor error. *)
Lemma handleGenerateClick_shown s reference subject :
  referenceImage s = Some reference ->
  subjectImage s = Some subject ->
  exists rest,
    shown (log (App.run (App.handleGenerateClick w) s).2) = phase1 s :: rest
    /\ Forall (fun s' => s' = phase1 s \/ s' = phase2 s) rest.
Proof.
  intros Href Hsubj. rewrite handleGenerateClick_run, Href, Hsubj.
  cbv zeta.
  destruct (readAsDataURL w (file reference)) as [r1|];
    [|by eexists; split; [reflexivity | repeat constructor]].
  destruct (styleModel w _) as [response|e];
    [|by eexists; split; [reflexivity | repeat constructor]].
  destruct (readAsDataURL w (file subject)) as [r2|];
    [|by eexists; split; [reflexivity | repeat constructor; auto]].
  destruct (promise_all _ _) as [[images|e]|];
    by eexists; split; [reflexivity | repeat constructor; auto].
Qed.

(** C8: a run started with both images present clears the results and the
    error left by earlier runs before its first step begins: the first
    state shown is the step-1 state, and every state shown while the run
    is in progress has no results and no error.  An upload clears both as
    well. *)
Theorem handleGenerateClick_clears_stale s reference subject :
  referenceImage s = Some reference ->
  subjectImage s = Some subject ->
  head (shown (log (App.run (App.handleGenerateClick w) s).2))
  = Some (App.setProgressMessage App.step1Message
            (App.setGeneratedImages None
               (App.setError None (App.setIsLoading true s))))
  /\ Forall (fun s' => generatedImages s' = None /\ error s' = None
                       /\ isLoading s' = true)
       (shown (log (App.run (App.handleGenerateClick w) s).2))
  /\ (forall f m,
        generatedImages (app (App.handleReferenceImageUpload w f m).2) = None
        /\ error (app (App.handleReferenceImageUpload w f m).2) = None)
  /\ (forall f m,
        generatedImages (app (App.handleSubjectImageUpload w f m).2) = None
        /\ error (app (App.handleSubjectImageUpload w f m).2) = None).
Proof.
  intros Href Hsubj.
  destruct (handleGenerateClick_shown s reference subject Href Hsubj)
    as (rest & -> & Hrest).
  split; [reflexivity|]. split; [|done].
  constructor; [done|].
  eapply Forall_impl; [exact Hrest|].
  by intros s' [-> | ->].
Qed.

(** C9: a selected file whose media type does not start with [image/] is
    ignored: the upload callback is not called, nothing is thrown or
    logged, and the state of the component is unchanged. *)
Theorem handleFileChange_ignores_non_image
    (files : option (list File)) f (onImageUpload : File -> Task unit) m :
  files ≫= (fun fs => fs !! 0) = Some f ->
  startsWith "image/" (type f) = false ->
  ImageUploader.handleFileChange files = None
  /\ App.uploaderChange onImageUpload files m = (Returned tt, m).
Proof.
  intros Hfile Htype.
  assert (Hnone : ImageUploader.handleFileChange files = None).
  { unfold ImageUploader.handleFileChange. by rewrite Hfile, Htype. }
  split; [done|]. unfold App.uploaderChange. by rewrite Hnone.
Qed.

(** The monitor [fusionGuarded] accepts a log only if every fusion call
    in it comes after a style response. *)
Lemma fusionGuarded_sound (pre : list Event) i req post :
  forall analysed,
    fusionGuarded analysed (pre ++ EvFusionCall i req :: post) = true ->
    analysed = true \/ exists response, EvStyleFulfilled response ∈ pre.
Proof.
  induction pre as [|ev pre IH]; intros analysed Hok.
  - simpl in Hok. apply andb_prop in Hok as [-> _]. by left.
  - assert (Hlift : (analysed = true \/
                     exists response, EvStyleFulfilled response ∈ pre) ->
                    analysed = true \/
                    exists response, EvStyleFulfilled response ∈ ev :: pre).
    { intros [?|[response ?]]; [by left|].
      right. exists response. apply elem_of_cons. by right. }
    destruct ev; simpl in Hok;
      try (apply Hlift; by apply IH).
    + right. eexists. apply elem_of_cons. by left.
    + apply andb_prop in Hok as [-> _]. by left.
Qed.

Lemma handleGenerateClick_guarded s :
  fusionGuarded false (log (App.run (App.handleGenerateClick w) s).2) = true.
Proof.
  rewrite handleGenerateClick_run.
  destruct (referenceImage s) as [reference|]; [|reflexivity].
  destruct (subjectImage s) as [subject|]; [|reflexivity].
  cbv zeta.
  destruct (readAsDataURL w (file reference)) as [r1|]; [|reflexivity].
  destruct (styleModel w _) as [response|e]; [|reflexivity].
  destruct (readAsDataURL w (file subject)) as [r2|]; [|reflexivity].
  destruct (promise_all _ _) as [[images|e]|]; reflexivity.
Qed.

Lemma handleGenerateClick_rejected_no_fusion s e :
  EvStyleRejected e ∈ log (App.run (App.handleGenerateClick w) s).2 ->
  forall i req,
    EvFusionCall i req ∉ log (App.run (App.handleGenerateClick w) s).2.
Proof.
  rewrite handleGenerateClick_run.
  destruct (referenceImage s) as [reference|];
    [|by intros ?%elem_of_nil].
  destruct (subjectImage s) as [subject|];
    [|by intros ?%elem_of_nil].
  cbv zeta.
  destruct (readAsDataURL w (file reference)) as [r1|];
    [|simpl; intros Hin; exfalso; by absent_from_log Hin].
  destruct (styleModel w _) as [response|e'];
    [|simpl; intros _ i req Hin; by absent_from_log Hin].
  destruct (readAsDataURL w (file subject)) as [r2|];
    [|simpl; intros Hin; exfalso; by absent_from_log Hin].
  destruct (promise_all _ _) as [[images|e']|];
    simpl; intros Hin; exfalso; by absent_from_log Hin.
Qed.

(** C5: in every run, a fusion call is issued only after the style call
    has returned a response; and when the style call fails, no fusion call
    is issued in that run. *)
Theorem fusion_only_after_style s :
  (forall (pre : list Event) i req post,
     log (App.run (App.handleGenerateClick w) s).2
     = pre ++ EvFusionCall i req :: post ->
     exists response, EvStyleFulfilled response ∈ pre)
  /\ (forall e,
        EvStyleRejected e ∈ log (App.run (App.handleGenerateClick w) s).2 ->
        forall i req,
          EvFusionCall i req
          ∉ log (App.run (App.handleGenerateClick w) s).2).
Proof.
  split.
  - intros pre i req post Hlog.
    pose proof (handleGenerateClick_guarded s) as Hok. rewrite Hlog in Hok.
    by destruct (fusionGuarded_sound _ _ _ _ _ Hok).
  - apply handleGenerateClick_rejected_no_fusion.
Qed.

(** C3, as the code has it: a run whose style call fails ends failed
    with the style-analysis message and never reaches the fusion phase;
    the text of a response that does arrive is not checked against the
    schema: whatever it is, the run enters the fusion phase; when the
    subject image is then read, the four fusion calls are issued with that
    text as the style guide, and when that read fails no fusion call is
    issued. *)
Theorem style_failure_is_fatal_text_unchecked s reference subject r1 :
  referenceImage s = Some reference ->
  subjectImage s = Some subject ->
  readAsDataURL w (file reference) = Loaded r1 ->
  (forall e,
     styleModel w
       (Service.styleRequest (split "," r1 !! 1) (type (file reference)))
     = Rejected e ->
     (App.run (App.handleGenerateClick w) s).1 = Returned tt
     /\ failedWith Service.styleFailedMessage
          (app (App.run (App.handleGenerateClick w) s).2)
     /\ fusionCalls (log (App.run (App.handleGenerateClick w) s).2) = []
     /\ Forall (fun s' => ~ awaitingFusion s')
          (shown (log (App.run (App.handleGenerateClick w) s).2)))
  /\ (forall response,
        styleModel w
          (Service.styleRequest (split "," r1 !! 1) (type (file reference)))
        = Fulfilled response ->
        Exists awaitingFusion
          (shown (log (App.run (App.handleGenerateClick w) s).2))
        /\ (forall r2,
              readAsDataURL w (file subject) = Loaded r2 ->
              fusionCalls (log (App.run (App.handleGenerateClick w) s).2)
              = (fun i =>
                   (i, Service.fusionRequest (text response)
                         (split "," r2 !! 1) (type (file subject))
                         (aspectRatio s)))
                <$> [0; 1; 2; 3])
        /\ (readAsDataURL w (file subject) = ReadFailed ->
            fusionCalls (log (App.run (App.handleGenerateClick w) s).2)
            = [])).
Proof.
  intros Href Hsubj Hread. split.
  - intros e Hstyle.
    rewrite handleGenerateClick_run, Href, Hsubj. cbv zeta.
    rewrite Hread, Hstyle. simpl.
    split; [done|]. split; [done|]. split; [done|].
    repeat constructor; intros [_ Hmsg]; discriminate Hmsg.
  - intros response Hstyle.
    rewrite handleGenerateClick_run, Href, Hsubj. cbv zeta.
    rewrite Hread, Hstyle.
    destruct (readAsDataURL w (file subject)) as [r2|].
    + destruct (promise_all _ _) as [[images|e]|]; simpl;
        (split;
         [apply Exists_cons_tl, Exists_cons_tl, Exists_cons_hd; done|]);
        (split; [by intros ? [= <-] | done]).
    + simpl. split;
        [apply Exists_cons_tl, Exists_cons_tl, Exists_cons_hd; done|].
      split; [done | done].
Qed.

(** C6: [fileToBase64] yields the payload of the data URL that the reader
    produces, without the [data:...;base64,] prefix, and rejects with the
    reader's error when the read fails; the handler sends that payload
    together with the media type of the file. *)
Theorem fileToBase64_payload_only f m :
  (forall mime payload,
     readAsDataURL w f = Loaded (dataUrl mime payload) ->
     noComma mime = true ->
     noComma payload = true ->
     App.fileToBase64 w f m
     = (Returned (Some payload),
        {| app := app m; log := log m ++ [EvReadFile f] |}))
  /\ (readAsDataURL w f = ReadFailed ->
      App.fileToBase64 w f m
      = (Threw NonError, {| app := app m; log := log m ++ [EvReadFile f] |}))
  /\ (forall s subject mime payload,
        referenceImage s = Some {| file := f; url := createObjectURL w f |} ->
        subjectImage s = Some subject ->
        readAsDataURL w f = Loaded (dataUrl mime payload) ->
        noComma mime = true ->
        noComma payload = true ->
        EvStyleCall (Service.styleRequest (Some payload) (type f))
        ∈ log (App.run (App.handleGenerateClick w) s).2).
Proof.
  split; [|split].
  - intros mime payload Hread Hmime Hpayload.
    rewrite fileToBase64_run, Hread. by rewrite split_dataUrl.
  - intros Hread. by rewrite fileToBase64_run, Hread.
  - intros s subject mime payload Href Hsubj Hread Hmime Hpayload.
    rewrite handleGenerateClick_run, Href, Hsubj. cbv zeta.
    cbn [file]. rewrite Hread. rewrite split_dataUrl by done.
    assert (Hcall : forall (l : list Event),
      EvStyleCall (Service.styleRequest (Some payload) (type f))
      ∈ ([EvSuspend (phase1 s); EvReadFile f] ++
         [EvSuspend (phase1 s);
          EvStyleCall (Service.styleRequest (Some payload) (type f))]) ++ l).
    { intros l. simpl. rewrite !elem_of_cons. auto. }
    destruct (styleModel w _) as [response|e]; [|apply Hcall].
    destruct (readAsDataURL w (file subject)) as [r2|].
    + destruct (promise_all _ _) as [[images|e]|]; simpl;
        rewrite !elem_of_cons; auto.
    + simpl. rewrite !elem_of_cons. auto.
Qed.




End AppFacts.

(** ** The statements at concrete inputs *)

Module Checks.

Import Sample.

Lemma four_in_issue_order_on_sample :
  (forall i, i < 4 -> i ∈ [2; 0; 3; 1])
  /\ Service.generateFusedImages (happy fullStyle [2; 0; 3; 1]) fullStyle
       (Some "QUJD") "image/png" "16:9"
       {| app := bothUploaded; log := [] |}
     = (Returned ["IMG0"; "IMG1"; "IMG2"; "IMG3"],
        {| app := bothUploaded;
           log := [EvFusionCall 0 request169; EvFusionCall 1 request169;
                   EvFusionCall 2 request169; EvFusionCall 3 request169] |}).
Proof.
  assert (Hsettled : forall i, i < 4 -> i ∈ [2; 0; 3; 1]).
  { intros [|[|[|[|i]]]] Hi; rewrite !elem_of_cons; auto. lia. }
  split; [exact Hsettled|].
  apply (generateFusedImages_four_in_issue_order
           (happy fullStyle [2; 0; 3; 1]) fullStyle (Some "QUJD")
           "image/png" "16:9" {| app := bothUploaded; log := [] |}
           "IMG0" "IMG1" "IMG2" "IMG3");
    [reflexivity | reflexivity | reflexivity | reflexivity | exact Hsettled].
Defined.

Lemma all_or_nothing_on_sample :
  (forall images,
     (Service.generateFusedImages thirdFails fullStyle (Some "QUJD")
        "image/png" "16:9" {| app := bothUploaded; log := [] |}).1
     <> Returned images)
  /\ (2 ∈ completion thirdFails ->
      (Service.generateFusedImages thirdFails fullStyle (Some "QUJD")
         "image/png" "16:9" {| app := bothUploaded; log := [] |}).1
      = Threw (ErrorObj Service.fusionFailedMessage)).
Proof.
  apply (generateFusedImages_all_or_nothing thirdFails fullStyle
           (Some "QUJD") "image/png" "16:9"
           {| app := bothUploaded; log := [] |} 2
           (ErrorObj Service.noImageMessage)); [lia | reflexivity].
Defined.

Lemma first_inline_part_on_sample :
  exists outcome,
    Service.generateSingleImage (happy fullStyle [2; 0; 3; 1]) request169 0
      {| app := bothUploaded; log := [] |}
    = (Returned outcome,
       {| app := bothUploaded; log := [EvFusionCall 0 request169] |})
    /\ outcome = Fulfilled "IMG0".
Proof.
  destruct (generateSingleImage_first_inline_part
              (happy fullStyle [2; 0; 3; 1]) request169 0
              {| app := bothUploaded; log := [] |}
              (imageResponse "image/jpeg" "IMG0") eq_refl)
    as (outcome & Hrun & Hscan & _).
  exists outcome. split; [exact Hrun|].
  apply (proj1 (Hscan _ eq_refl)
           [ {| part_text := Some "Here is the image.";
                inlineData := None |} ]
           {| part_text := None;
              inlineData := Some {| inline_mimeType := "image/jpeg";
                                    inline_data := "IMG0" |} |}
           {| inline_mimeType := "image/jpeg"; inline_data := "IMG0" |}
           []); [reflexivity | | reflexivity].
  repeat constructor.
Defined.

(** C7 as stated fails: a reply without candidates has no part that
    carries inline data, and the call fails with the type error of the
    property access, which is not the no-image-data error. *)
Lemma missing_parts_is_not_no_image_error :
  parts Sample2.noCandidates = None
  /\ imageModel Sample2.emptyReplies 0 request169
     = Fulfilled Sample2.noCandidates
  /\ (Service.generateSingleImage Sample2.emptyReplies request169 0
        {| app := bothUploaded; log := [] |}).1
     = Returned (Rejected undefinedAccess)
  /\ (Service.generateSingleImage Sample2.emptyReplies request169 0
        {| app := bothUploaded; log := [] |}).1
     <> Returned (Rejected (ErrorObj Service.noImageMessage)).
Proof.
  split; [reflexivity|]. split; [reflexivity|]. split; [reflexivity|].
  intros Heq. discriminate Heq.
Qed.

Lemma missing_image_on_sample :
  error (app (App.run (App.handleGenerateClick styleBlocked)
                onlyReference).2)
  = Some App.validationMessage
  /\ log (App.run (App.handleGenerateClick styleBlocked) onlyReference).2
     = [].
Proof.
  pose proof (handleGenerateClick_missing_image styleBlocked onlyReference
                (or_intror eq_refl)) as (Hrun & _ & _ & _ & _ & Herror).
  split; [exact Herror|]. rewrite Hrun. reflexivity.
Defined.

Lemma fusion_only_after_style_on_sample :
  exists response,
    EvStyleFulfilled response
    ∈ take 8 (log (App.run (App.handleGenerateClick
                               (happy fullStyle [2; 0; 3; 1]))
                     bothUploaded).2).
Proof.
  apply (proj1 (fusion_only_after_style (happy fullStyle [2; 0; 3; 1])
                  bothUploaded)
           _ 0 request169
           [EvFusionCall 1 request169; EvFusionCall 2 request169;
            EvFusionCall 3 request169]).
  reflexivity.
Defined.

Lemma style_failure_on_sample :
  (failedWith Service.styleFailedMessage
     (app (App.run (App.handleGenerateClick styleBlocked) bothUploaded).2)
   /\ fusionCalls
        (log (App.run (App.handleGenerateClick styleBlocked) bothUploaded).2)
      = [])
  /\ fusionCalls
       (log (App.run (App.handleGenerateClick
                        (happy partialStyle [2; 0; 3; 1]))
               bothUploaded).2)
     = (fun i =>
          (i, Service.fusionRequest partialStyle (Some "QUJD") "image/png"
                "16:9"))
       <$> [0; 1; 2; 3].
Proof.
  split.
  - destruct (style_failure_is_fatal_text_unchecked styleBlocked
                bothUploaded
                {| file := referenceFile; url := "blob:reference" |}
                {| file := subjectFile; url := "blob:subject" |}
                (dataUrl "image/jpeg" "QUJD") eq_refl eq_refl eq_refl)
      as [Hfail _].
    destruct (Hfail (ErrorObj "blocked") eq_refl)
      as (_ & Hfailed & Hnone & _).
    split; [exact Hfailed | exact Hnone].
  - destruct (style_failure_is_fatal_text_unchecked
                (happy partialStyle [2; 0; 3; 1]) bothUploaded
                {| file := referenceFile; url := "blob:reference" |}
                {| file := subjectFile; url := "blob:subject" |}
                (dataUrl "image/jpeg" "QUJD") eq_refl eq_refl eq_refl)
      as [_ Hgoes].
    destruct (Hgoes {| text := partialStyle |} eq_refl)
      as (_ & Hcalls & _).
    exact (Hcalls (dataUrl "image/png" "QUJD") eq_refl).
Defined.

(** C3 as stated fails: the style response below lacks five of the six
    required fields, and the run goes through the fusion phase, issues the
    four fusion calls and ends with four images and no error. *)
Lemma schema_violation_reaches_fusion :
  missingRequiredField partialStyle = true
  /\ styleModel (happy partialStyle [2; 0; 3; 1])
       (Service.styleRequest (Some "QUJD") "image/jpeg")
     = Fulfilled {| text := partialStyle |}
  /\ succeededWith
       ["data:image/png;base64,IMG0"; "data:image/png;base64,IMG1";
        "data:image/png;base64,IMG2"; "data:image/png;base64,IMG3"]
       (app (App.run (App.handleGenerateClick
                        (happy partialStyle [2; 0; 3; 1]))
               bothUploaded).2)
  /\ Exists awaitingFusion
       (shown (log (App.run (App.handleGenerateClick
                               (happy partialStyle [2; 0; 3; 1]))
                      bothUploaded).2))
  /\ length (fusionCalls
               (log (App.run (App.handleGenerateClick
                                (happy partialStyle [2; 0; 3; 1]))
                       bothUploaded).2))
     = 4.
Proof.
  split; [reflexivity|]. split; [reflexivity|].
  split; [by repeat split|]. split; [|reflexivity].
  vm_compute. apply Exists_cons_tl, Exists_cons_tl, Exists_cons_hd.
  by split.
Qed.

Lemma payload_only_on_sample :
  App.fileToBase64 (happy fullStyle [0; 1; 2; 3]) subjectFile
    {| app := bothUploaded; log := [] |}
  = (Returned (Some "QUJD"),
     {| app := bothUploaded; log := [EvReadFile subjectFile] |})
  /\ App.fileToBase64 unreadable subjectFile
       {| app := bothUploaded; log := [] |}
     = (Threw NonError,
        {| app := bothUploaded; log := [EvReadFile subjectFile] |}).
Proof.
  split.
  - apply (proj1 (fileToBase64_payload_only (happy fullStyle [0; 1; 2; 3])
                    subjectFile {| app := bothUploaded; log := [] |})
             "image/png" "QUJD"); reflexivity.
  - apply (proj1 (proj2 (fileToBase64_payload_only unreadable subjectFile
                           {| app := bothUploaded; log := [] |})));
      reflexivity.
Defined.

Lemma clears_stale_on_sample :
  generatedImages bothUploaded = Some ["data:image/png;base64,b2xk"]
  /\ error bothUploaded = Some "an earlier failure"
  /\ Forall (fun s' => generatedImages s' = None /\ error s' = None
                       /\ isLoading s' = true)
       (shown (log (App.run (App.handleGenerateClick thirdFails)
                      bothUploaded).2)).
Proof.
  split; [reflexivity|]. split; [reflexivity|].
  apply (handleGenerateClick_clears_stale thirdFails bothUploaded _ _
           eq_refl eq_refl).
Defined.

Lemma ignores_non_image_on_sample :
  ImageUploader.handleFileChange (Some [notesFile]) = None
  /\ App.uploaderChange (App.handleReferenceImageUpload styleBlocked)
       (Some [notesFile]) {| app := bothUploaded; log := [] |}
     = (Returned tt, {| app := bothUploaded; log := [] |}).
Proof.
  apply (handleFileChange_ignores_non_image (Some [notesFile]) notesFile);
    reflexivity.
Defined.


End Checks.

(** * Further properties *)

(** ** [Promise.all]: a promise that never settles *)

Section PromiseAllPending.
Context {A : Type}.
Implicit Types (ps : list (Settled A)) (st : @AllState A).

(** While a promise has not settled and no settled promise has rejected,
    the result stays pending. *)
Lemma all_run_waits ps order k :
  k ∉ order ->
  (forall i e, i ∈ order -> ps !! i <> Some (Rejected e)) ->
  forall st,
    all_inv ps st ->
    result st = None ->
    values st !! k = Some None ->
    result (foldl (all_step ps) st order) = None.
Proof.
  induction order as [|i order IH]; intros Hk Hok st Hinv Hres Hhole;
    simpl; [done|].
  apply not_elem_of_cons in Hk as [Hne Hk].
  assert (Hhole' : values (all_step ps st i) !! k = Some None).
  { unfold all_step. rewrite Hres.
    destruct (ps !! i) as [[v|e]|]; [|done|done].
    destruct (values st !! i) as [[v'|]|]; [done| |done].
    simpl. rewrite list_lookup_insert_ne; done. }
  pose proof (all_step_inv ps st i Hinv) as Hinv'.
  apply IH; [done | | done | | done].
  - intros j e Hj. apply Hok. by right.
  - destruct (result (all_step ps st i)) as [[xs|e]|] eqn:Hres';
      [| |done].
    + destruct Hinv' as [Hlen Hcount _ Hr]. rewrite Hres' in Hr.
      destruct Hr as [Hzero _].
      pose proof (omap_id_hole _ _ Hhole'). lia.
    + exfalso. revert Hres'. unfold all_step. rewrite Hres.
      destruct (ps !! i) as [[v|e']|] eqn:Hp.
      * destruct (values st !! i) as [[v'|]|]; simpl; try congruence.
        destruct (Nat.eqb _ _); congruence.
      * exfalso. eapply Hok; [by left | exact Hp].
      * congruence.
Qed.

Lemma promise_all_pending ps order k :
  k < length ps ->
  k ∉ order ->
  (forall i e, i ∈ order -> ps !! i <> Some (Rejected e)) ->
  promise_all ps order = None.
Proof.
  intros Hlt Hk Hok. unfold promise_all.
  apply (all_run_waits ps order k Hk Hok); [apply all_init_inv | |].
  - simpl. destruct (length ps); [lia | done].
  - simpl. by apply lookup_replicate_2.
Qed.

End PromiseAllPending.

(** ** Runs of [handleGenerateClick] *)

Section RunFacts.
Variable w : World.

#[local] Arguments Service.finalPrompt : simpl never.
#[local] Arguments promise_all : simpl never.
#[local] Arguments Service.singleImageResult : simpl never.
#[local] Arguments Js.split : simpl never.
#[local] Arguments App.pngDataUrl : simpl never.

(** X1: [handleGenerateClick] never throws: every failure of the reader or
    of the remote service is caught inside the handler. *)
Theorem handleGenerateClick_never_throws s e :
  (App.run (App.handleGenerateClick w) s).1 <> Threw e.
Proof.
  rewrite handleGenerateClick_run.
  destruct (referenceImage s) as [reference|]; [|done].
  destruct (subjectImage s) as [subject|]; [|done].
  cbv zeta.
  destruct (readAsDataURL w (file reference)) as [r1|]; [|done].
  destruct (styleModel w _) as [response|e']; [|done].
  destruct (readAsDataURL w (file subject)) as [r2|]; [|done].
  destruct (promise_all _ _) as [[images|e']|]; done.
Qed.

(** X2: once a run with both images has completed, the trigger is enabled
    again, the spinner is gone, the uploaded images and the aspect ratio
    are as before, and the page shows either the error box with one of
    three fixed messages and no gallery, or a gallery of four tiles and no
    error box. *)
Theorem handleGenerateClick_completed s reference subject m :
  referenceImage s = Some reference ->
  subjectImage s = Some subject ->
  App.run (App.handleGenerateClick w) s = (Returned tt, m) ->
  referenceImage (app m) = Some reference
  /\ subjectImage (app m) = Some subject
  /\ aspectRatio (app m) = aspectRatio s
  /\ View.generateDisabled (app m) = false
  /\ View.spinner (app m) = None
  /\ ((exists msg,
         msg ∈ [App.unknownErrorMessage; Service.styleFailedMessage;
                Service.fusionFailedMessage]
         /\ View.errorBox (app m) = Some msg
         /\ View.gallery (app m) = None)
      \/ (View.errorBox (app m) = None
          /\ exists tiles,
               View.gallery (app m) = Some tiles /\ length tiles = 4)).
Proof.
  intros Href Hsubj. rewrite handleGenerateClick_run, Href, Hsubj.
  cbv zeta.
  assert (Hview : forall s0 : AppState,
            referenceImage s0 = Some reference ->
            subjectImage s0 = Some subject ->
            isLoading s0 = false ->
            View.generateDisabled s0 = false).
  { intros s0 H1 H2 H3. unfold View.generateDisabled.
    rewrite H1, H2, H3. reflexivity. }
  destruct (readAsDataURL w (file reference)) as [r1|].
  2:{ intros [= <-]. simpl. repeat (split; [by auto|]).
      left. eexists. split; [|by split]. rewrite !elem_of_cons. auto. }
  destruct (styleModel w _) as [response|e].
  2:{ intros [= <-]. simpl. repeat (split; [by auto|]).
      left. eexists. split; [|by split]. rewrite !elem_of_cons. auto. }
  destruct (readAsDataURL w (file subject)) as [r2|].
  2:{ intros [= <-]. simpl. repeat (split; [by auto|]).
      left. eexists. split; [|by split]. rewrite !elem_of_cons. auto. }
  destruct (promise_all _ _) as [[images|e]|] eqn:Hall; [| |done].
  - intros [= <-]. simpl. repeat (split; [by auto|]).
    right. split; [done|]. eexists. split; [reflexivity|].
    apply promise_all_fulfilled_inv in Hall.
    apply (f_equal length) in Hall.
    rewrite length_imap, !length_fmap. rewrite !length_fmap in Hall.
    done.
  - intros [= <-]. simpl. repeat (split; [by auto|]).
    left. eexists. split; [|by split]. rewrite !elem_of_cons. auto.
Qed.

(** X3: while a run is in progress, the trigger is disabled and reads
    [Generating...], the spinner shows the label of step 1 or of step 2,
    and neither the gallery nor the error box is shown. *)
Theorem handleGenerateClick_view_while_running s reference subject :
  referenceImage s = Some reference ->
  subjectImage s = Some subject ->
  Forall (fun s' =>
            View.generateDisabled s' = true
            /\ View.generateLabel s' = "Generating..."
            /\ (View.spinner s' = Some App.step1Message
                \/ View.spinner s' = Some App.step2Message)
            /\ View.gallery s' = None
            /\ View.errorBox s' = None)
    (shown (log (App.run (App.handleGenerateClick w) s).2)).
Proof.
  intros Href Hsubj.
  destruct (handleGenerateClick_shown w s reference subject Href Hsubj)
    as (rest & -> & Hrest).
  assert (Hdisabled : forall s0 : AppState,
            isLoading s0 = true -> View.generateDisabled s0 = true).
  { intros s0 H0. unfold View.generateDisabled. rewrite H0.
    by rewrite orb_true_r. }
  constructor.
  - repeat split; auto.
  - eapply Forall_impl; [exact Hrest|].
    intros s' [-> | ->]; repeat split; auto.
Qed.

(** X4: when the trigger is enabled, pressing it starts a run: step 1 is
    shown, and whatever happens next the validation message is not what
    ends up in the error cell. *)
Theorem enabled_trigger_starts_run s :
  View.generateDisabled s = false ->
  head (shown (log (App.run (App.handleGenerateClick w) s).2))
  = Some (phase1 s)
  /\ error (app (App.run (App.handleGenerateClick w) s).2)
     <> Some App.validationMessage.
Proof.
  unfold View.generateDisabled. intros Henabled.
  apply orb_false_elim in Henabled as [Henabled _].
  apply orb_false_elim in Henabled as [Href Hsubj].
  apply negb_false_iff, bool_decide_eq_true in Href as [reference Href].
  apply negb_false_iff, bool_decide_eq_true in Hsubj as [subject Hsubj].
  rewrite handleGenerateClick_run, Href, Hsubj. cbv zeta.
  destruct (readAsDataURL w (file reference)) as [r1|]; [|by split].
  destruct (styleModel w _) as [response|e]; [|by split].
  destruct (readAsDataURL w (file subject)) as [r2|]; [|by split].
  destruct (promise_all _ _) as [[images|e]|]; by split.
Qed.

(** X5: a failed read aborts the run with the generic message.  When the
    reference image cannot be read, no remote call is made at all; when
    the subject image cannot be read, the style call has been made and no
    fusion call follows. *)
Theorem read_failure_aborts_run s reference subject :
  referenceImage s = Some reference ->
  subjectImage s = Some subject ->
  (readAsDataURL w (file reference) = ReadFailed ->
   (App.run (App.handleGenerateClick w) s).1 = Returned tt
   /\ failedWith App.unknownErrorMessage
        (app (App.run (App.handleGenerateClick w) s).2)
   /\ remoteCalls (log (App.run (App.handleGenerateClick w) s).2) = [])
  /\ (forall r1 response,
        readAsDataURL w (file reference) = Loaded r1 ->
        styleModel w
          (Service.styleRequest (split "," r1 !! 1) (type (file reference)))
        = Fulfilled response ->
        readAsDataURL w (file subject) = ReadFailed ->
        (App.run (App.handleGenerateClick w) s).1 = Returned tt
        /\ failedWith App.unknownErrorMessage
             (app (App.run (App.handleGenerateClick w) s).2)
        /\ remoteCalls (log (App.run (App.handleGenerateClick w) s).2)
           = [EvStyleCall
                (Service.styleRequest (split "," r1 !! 1)
                   (type (file reference)))]).
Proof.
  intros Href Hsubj. split.
  - intros Hread. rewrite handleGenerateClick_run, Href, Hsubj. cbv zeta.
    rewrite Hread. by repeat split.
  - intros r1 response Hread Hstyle Hread2.
    rewrite handleGenerateClick_run, Href, Hsubj. cbv zeta.
    rewrite Hread, Hstyle, Hread2. by repeat split.
Qed.

(** X6: when one of the four fusion calls fails and has settled, the run
    ends with the fusion message in the error box and no gallery, however
    many of the other calls produced an image. *)
Theorem fusion_failure_fails_run s reference subject r1 response r2 k e :
  referenceImage s = Some reference ->
  subjectImage s = Some subject ->
  readAsDataURL w (file reference) = Loaded r1 ->
  styleModel w
    (Service.styleRequest (split "," r1 !! 1) (type (file reference)))
  = Fulfilled response ->
  readAsDataURL w (file subject) = Loaded r2 ->
  k < 4 ->
  Service.singleImageResult
    (imageModel w k
       (Service.fusionRequest (text response) (split "," r2 !! 1)
          (type (file subject)) (aspectRatio s)))
  = Rejected e ->
  k ∈ completion w ->
  (App.run (App.handleGenerateClick w) s).1 = Returned tt
  /\ failedWith Service.fusionFailedMessage
       (app (App.run (App.handleGenerateClick w) s).2)
  /\ View.errorBox (app (App.run (App.handleGenerateClick w) s).2)
     = Some Service.fusionFailedMessage
  /\ View.gallery (app (App.run (App.handleGenerateClick w) s).2) = None.
Proof.
  intros Href Hsubj Hread Hstyle Hread2 Hk Hfail Hsettled.
  rewrite handleGenerateClick_run, Href, Hsubj. cbv zeta.
  rewrite Hread, Hstyle, Hread2.
  match goal with
  | |- context [promise_all ?ps ?order] =>
      destruct (promise_all_rejects ps order k e) as [e' ->]
  end; [|done|by repeat split].
  destruct k as [|[|[|[|k]]]]; [by rewrite <- Hfail ..|lia].
Qed.

(** X7: when both files are read, the style call answers and the four
    fusion calls all fulfil and settle, the run ends with exactly the four
    payloads as PNG data URLs, in the order of the calls, and no error. *)
Theorem full_run_succeeds s reference subject r1 response r2 d0 d1 d2 d3 :
  referenceImage s = Some reference ->
  subjectImage s = Some subject ->
  readAsDataURL w (file reference) = Loaded r1 ->
  styleModel w
    (Service.styleRequest (split "," r1 !! 1) (type (file reference)))
  = Fulfilled response ->
  readAsDataURL w (file subject) = Loaded r2 ->
  Service.singleImageResult <$>
    [imageModel w 0
       (Service.fusionRequest (text response) (split "," r2 !! 1)
          (type (file subject)) (aspectRatio s));
     imageModel w 1
       (Service.fusionRequest (text response) (split "," r2 !! 1)
          (type (file subject)) (aspectRatio s));
     imageModel w 2
       (Service.fusionRequest (text response) (split "," r2 !! 1)
          (type (file subject)) (aspectRatio s));
     imageModel w 3
       (Service.fusionRequest (text response) (split "," r2 !! 1)
          (type (file subject)) (aspectRatio s))]
  = [Fulfilled d0; Fulfilled d1; Fulfilled d2; Fulfilled d3] ->
  (forall i, i < 4 -> i ∈ completion w) ->
  (App.run (App.handleGenerateClick w) s).1 = Returned tt
  /\ succeededWith
       ["data:image/png;base64," +:+ d0; "data:image/png;base64," +:+ d1;
        "data:image/png;base64," +:+ d2; "data:image/png;base64," +:+ d3]
       (app (App.run (App.handleGenerateClick w) s).2)
  /\ length (remoteCalls (log (App.run (App.handleGenerateClick w) s).2))
     = 5.
Proof.
  intros Href Hsubj Hread Hstyle Hread2 Hcalls Hsettled.
  rewrite handleGenerateClick_run, Href, Hsubj. cbv zeta.
  rewrite Hread, Hstyle, Hread2, Hcalls.
  pose proof (promise_all_fulfils [d0; d1; d2; d3] (completion w) Hsettled)
    as Hall.
  cbn [fmap list_fmap] in Hall. rewrite Hall. by repeat split.
Qed.

(** X8: a run makes at most one style call and at most two file reads,
    and either no fusion call or exactly four, numbered 0 to 3 and all
    carrying the same request. *)
Theorem run_call_budget s :
  length (List.filter isStyleCall
            (log (App.run (App.handleGenerateClick w) s).2)) <= 1
  /\ length (List.filter isReadFile
               (log (App.run (App.handleGenerateClick w) s).2)) <= 2
  /\ (fusionCalls (log (App.run (App.handleGenerateClick w) s).2) = []
      \/ exists req,
           fusionCalls (log (App.run (App.handleGenerateClick w) s).2)
           = [(0, req); (1, req); (2, req); (3, req)]).
Proof.
  rewrite handleGenerateClick_run.
  destruct (referenceImage s) as [reference|];
    [|by split; [simpl; lia | split; [simpl; lia | left]]].
  destruct (subjectImage s) as [subject|];
    [|by split; [simpl; lia | split; [simpl; lia | left]]].
  cbv zeta.
  destruct (readAsDataURL w (file reference)) as [r1|];
    [|by split; [simpl; lia | split; [simpl; lia | left]]].
  destruct (styleModel w _) as [response|e];
    [|by split; [simpl; lia | split; [simpl; lia | left]]].
  destruct (readAsDataURL w (file subject)) as [r2|];
    [|by split; [simpl; lia | split; [simpl; lia | left]]].
  destruct (promise_all _ _) as [[images|e]|];
    (split; [simpl; lia | split; [simpl; lia | right; by eexists]]).
Qed.

(** X9: there is no time limit on the fusion calls: when one of them
    never settles and none of those that settled has failed, the handler
    stays suspended in step 2, with the spinner shown and the trigger
    disabled. *)
Theorem unsettled_call_suspends_run s reference subject r1 response r2 k :
  referenceImage s = Some reference ->
  subjectImage s = Some subject ->
  readAsDataURL w (file reference) = Loaded r1 ->
  styleModel w
    (Service.styleRequest (split "," r1 !! 1) (type (file reference)))
  = Fulfilled response ->
  readAsDataURL w (file subject) = Loaded r2 ->
  k < 4 ->
  k ∉ completion w ->
  (forall i e,
     i ∈ completion w ->
     Service.singleImageResult
       (imageModel w i
          (Service.fusionRequest (text response) (split "," r2 !! 1)
             (type (file subject)) (aspectRatio s)))
     <> Rejected e) ->
  (App.run (App.handleGenerateClick w) s).1 = Pending
  /\ app (App.run (App.handleGenerateClick w) s).2 = phase2 s
  /\ View.spinner (app (App.run (App.handleGenerateClick w) s).2)
     = Some App.step2Message
  /\ View.generateDisabled (app (App.run (App.handleGenerateClick w) s).2)
     = true.
Proof.
  intros Href Hsubj Hread Hstyle Hread2 Hk Hnever Hok.
  rewrite handleGenerateClick_run, Href, Hsubj. cbv zeta.
  rewrite Hread, Hstyle, Hread2.
  match goal with
  | |- context [promise_all ?ps ?order] =>
      rewrite (promise_all_pending ps order k)
  end.
  - repeat split. unfold View.generateDisabled. simpl.
    by rewrite orb_true_r.
  - simpl. lia.
  - done.
  - intros i e Hi Hrej. apply (Hok i e Hi).
    destruct i as [|[|[|[|i]]]]; simpl in Hrej; by simplify_eq.
Qed.

(** X10: a run does not depend on what earlier runs left behind: started
    from a state with other results and another error, it makes the same
    calls, shows the same states and ends in the same state. *)
Theorem run_ignores_stale_state s reference subject results message :
  referenceImage s = Some reference ->
  subjectImage s = Some subject ->
  App.run (App.handleGenerateClick w)
    (App.setError message (App.setGeneratedImages results s))
  = App.run (App.handleGenerateClick w) s.
Proof.
  intros Href Hsubj. rewrite !handleGenerateClick_run. simpl.
  rewrite Href, Hsubj. reflexivity.
Qed.

End RunFacts.

(** ** Strings *)

Lemma split_nonempty sep s : exists hd tl, split sep s = hd :: tl.
Proof.
  induction s as [|c s (hd & tl & IH)]; simpl; [by eauto|].
  destruct (Ascii.eqb c sep); [by eauto|]. rewrite IH. eauto.
Qed.

Lemma append_cons c a b : String c a +:+ b = String c (a +:+ b).
Proof. reflexivity. Qed.

Lemma append_empty_r s : s +:+ EmptyString = s.
Proof.
  induction s as [|c s IH]; [done|]. by rewrite append_cons, IH.
Qed.

Lemma append_assoc a b c : (a +:+ b) +:+ c = a +:+ b +:+ c.
Proof.
  induction a as [|d a IH]; [done|]. by rewrite !append_cons, IH.
Qed.

Lemma append_length a b :
  String.length (a +:+ b) = String.length a + String.length b.
Proof.
  induction a as [|c a IH]; [done|].
  rewrite append_cons. simpl. by rewrite IH.
Qed.

Lemma append_inj_r a b x : a +:+ x = b +:+ x -> a = b.
Proof.
  revert b. induction a as [|c a IH]; intros [|d b] Heq.
  - done.
  - apply (f_equal String.length) in Heq.
    change (EmptyString +:+ x) with x in Heq.
    rewrite append_cons in Heq. simpl in Heq.
    rewrite append_length in Heq. lia.
  - apply (f_equal String.length) in Heq.
    change (EmptyString +:+ x) with x in Heq.
    rewrite append_cons in Heq. simpl in Heq.
    rewrite append_length in Heq. lia.
  - rewrite !append_cons in Heq. injection Heq as -> Heq.
    f_equal. by apply IH.
Qed.

Lemma showNat_inj i j : showNat i = showNat j -> i = j.
Proof.
  unfold showNat. intros Heq.
  apply (f_equal NilEmpty.uint_of_string) in Heq.
  rewrite !NilEmpty.usu in Heq. injection Heq as Heq.
  apply (f_equal Nat.of_uint) in Heq.
  by rewrite !DecimalNat.Unsigned.of_to in Heq.
Qed.

Lemma contains_append needle pre post :
  contains needle (pre +:+ needle +:+ post) = true.
Proof.
  induction pre as [|c pre IH].
  - assert (Hp : String.prefix needle (needle +:+ post) = true)
      by apply startsWith_append.
    change (EmptyString +:+ needle +:+ post) with (needle +:+ post).
    revert Hp. generalize (needle +:+ post). intros hay Hp.
    destruct hay as [|c hay].
    + change (String.prefix needle EmptyString || false = true).
      by rewrite Hp.
    + change (String.prefix needle (String c hay) || contains needle hay
              = true).
      by rewrite Hp.
  - rewrite append_cons.
    change (String.prefix needle (String c (pre +:+ needle +:+ post))
            || contains needle (pre +:+ needle +:+ post) = true).
    by rewrite IH, orb_true_r.
Qed.

(** ** Encoding a file: results that are not plain data URLs *)

Section EncoderEdges.
Variable w : World.

#[local] Arguments Js.split : simpl never.

(** X11: when the text produced by the reader has no comma, the payload
    that [fileToBase64] resolves with is [undefined]; the run goes on and
    sends the style request with that payload. *)
Theorem fileToBase64_without_comma f m result :
  readAsDataURL w f = Loaded result ->
  noComma result = true ->
  App.fileToBase64 w f m
  = (Returned None, {| app := app m; log := log m ++ [EvReadFile f] |})
  /\ (forall s subject,
        referenceImage s = Some {| file := f; url := createObjectURL w f |} ->
        subjectImage s = Some subject ->
        head (remoteCalls (log (App.run (App.handleGenerateClick w) s).2))
        = Some (EvStyleCall (Service.styleRequest None (type f)))).
Proof.
  intros Hread Hplain. split.
  - rewrite fileToBase64_run, Hread. by rewrite split_noComma.
  - intros s subject Href Hsubj.
    rewrite handleGenerateClick_run, Href, Hsubj. cbv zeta. cbn [file].
    rewrite Hread, (split_noComma result Hplain). cbn [lookup list_lookup].
    destruct (styleModel w _) as [response|e]; [|reflexivity].
    destruct (readAsDataURL w (file subject)) as [r2|]; [|reflexivity].
    destruct (promise_all _ _) as [[images|e]|]; reflexivity.
Qed.

(** X12: [fileToBase64] keeps the text between the first and the second
    comma of what the reader produced: anything after a second comma is
    dropped. *)
Theorem fileToBase64_second_segment f m a b c :
  readAsDataURL w f = Loaded (a +:+ "," +:+ b +:+ "," +:+ c) ->
  noComma a = true ->
  noComma b = true ->
  App.fileToBase64 w f m
  = (Returned (Some b), {| app := app m; log := log m ++ [EvReadFile f] |}).
Proof.
  intros Hread Ha Hb. rewrite fileToBase64_run, Hread.
  destruct (split_nonempty "," c) as (hd & tl & Hc).
  assert (Hrest : split "," ("," +:+ b +:+ "," +:+ c)
                  = EmptyString :: b :: hd :: tl).
  { change ("," +:+ b +:+ "," +:+ c) with (String "," (b +:+ String "," c)).
    assert (Hb' : split "," (b +:+ String "," c) = (b +:+ EmptyString) :: hd :: tl).
    { apply split_prefix; [done|].
      change (split "," (String "," c)) with (EmptyString :: split "," c).
      by rewrite Hc. }
    change (split "," (String "," (b +:+ String "," c)))
      with (EmptyString :: split "," (b +:+ String "," c)).
    rewrite Hb', append_empty_r. reflexivity. }
  rewrite (split_prefix a _ EmptyString (b :: hd :: tl) Ha Hrest).
  reflexivity.
Qed.

End EncoderEdges.

(** ** The gallery and its download links *)

(** In the model, where the index is a natural number, the download
    name determines the index. *)
Lemma download_name_inj src1 src2 i j :
  GeneratedImage.download (GeneratedImage.handleDownload src1 i)
  = GeneratedImage.download (GeneratedImage.handleDownload src2 j) ->
  i = j.
Proof.
  simpl. intros Heq. apply (inj (String.app _)) in Heq.
  apply append_inj_r, showNat_inj in Heq. lia.
Qed.

(** X13: for tile indices below 2^53 - 1, where the sum [index + 1] of the
    code is exact, two tiles with different indices have different
    download names. *)
Theorem download_names_distinct src1 src2 i j :
  (N.of_nat i < 2 ^ 53 - 1)%N ->
  (N.of_nat j < 2 ^ 53 - 1)%N ->
  i <> j ->
  GeneratedImage.download (GeneratedImage.handleDownload src1 i)
  <> GeneratedImage.download (GeneratedImage.handleDownload src2 j).
Proof.
  intros _ _ Hne Heq. apply Hne. by eapply download_name_inj.
Qed.

(** X14: the gallery has one tile per generated image, in order: the tile
    at position [i] has index [i], shows the [i]-th image, and its alt
    text and download name carry the number [i + 1]; no two tiles share a
    download name. *)
Theorem gallery_tiles s tiles :
  View.gallery s = Some tiles ->
  exists images,
    generatedImages s = Some images
    /\ length tiles = length images
    /\ (forall i t,
          tiles !! i = Some t ->
          View.index t = i
          /\ images !! i = Some (View.src t)
          /\ View.alt t = "AI Generated Fusion Image " +:+ showNat (i + 1)
          /\ GeneratedImage.download
               (GeneratedImage.handleDownload (View.src t) (View.index t))
             = "ai-fused-image-" +:+ showNat (i + 1) +:+ ".png")
    /\ NoDup ((fun t => GeneratedImage.download
                          (GeneratedImage.handleDownload (View.src t)
                             (View.index t))) <$> tiles).
Proof.
  unfold View.gallery. destruct (generatedImages s) as [images|]; [|done].
  destruct (isLoading s); [done|]. intros [= <-].
  exists images. split; [done|]. split; [apply length_imap|].
  assert (Htile : forall i t,
            imap (fun index src =>
                    {| View.src := src;
                       View.alt := "AI Generated Fusion Image "
                                   +:+ showNat (index + 1);
                       View.index := index |}) images !! i = Some t ->
            View.index t = i /\ images !! i = Some (View.src t)
            /\ View.alt t = "AI Generated Fusion Image " +:+ showNat (i + 1)).
  { intros i t Ht. rewrite list_lookup_imap in Ht.
    destruct (images !! i) as [src|]; simplify_eq/=. done. }
  split.
  - intros i t Ht. destruct (Htile i t Ht) as (Hi & Hsrc & Halt).
    rewrite Hi. done.
  - apply NoDup_alt. intros i j name Hi Hj.
    rewrite list_lookup_fmap in Hi, Hj.
    destruct (imap _ images !! i) as [ti|] eqn:Hti; [|done].
    destruct (imap _ images !! j) as [tj|] eqn:Htj; [|done].
    destruct (Htile i ti Hti) as (<- & _ & _).
    destruct (Htile j tj Htj) as (<- & _ & _).
    simpl in Hi, Hj. injection Hi as Hi. injection Hj as Hj.
    apply (download_name_inj (View.src ti) (View.src tj)).
    simpl. by rewrite Hi, Hj.
Qed.

(** ** The fusion prompt *)

(** X15: the prompt of a fusion call contains the requested aspect ratio
    and the style text, the style text comes last, and two different style
    texts give two different prompts. *)
Theorem finalPrompt_embeds aspect style :
  contains aspect (Service.finalPrompt aspect style) = true
  /\ contains style (Service.finalPrompt aspect style) = true
  /\ (exists instructions,
        Service.finalPrompt aspect style = instructions +:+ style)
  /\ (forall style',
        Service.finalPrompt aspect style = Service.finalPrompt aspect style' ->
        style = style').
Proof.
  unfold Service.finalPrompt. split; [apply contains_append|].
  split; [|split].
  - match goal with
    | |- contains _ (?a +:+ ?x +:+ ?b +:+ ?y) = true =>
        replace (a +:+ x +:+ b +:+ y)
          with ((a +:+ x +:+ b) +:+ y +:+ EmptyString)
    end.
    + apply contains_append.
    + by rewrite append_empty_r, !append_assoc.
  - match goal with
    | |- exists _, ?a +:+ ?x +:+ ?b +:+ ?y = _ =>
        exists (a +:+ x +:+ b)
    end.
    by rewrite !append_assoc.
  - intros style' Heq.
    by repeat apply (inj (String.app _)) in Heq.
Qed.

(** ** Uploads *)

Section UploadFacts.
Variable w : World.

Lemma handleFileChange_Some files f :
  ImageUploader.handleFileChange files = Some f ->
  files ≫= (fun fs => fs !! 0) = Some f
  /\ startsWith "image/" (type f) = true.
Proof.
  unfold ImageUploader.handleFileChange.
  destruct (files ≫= _) as [g|]; [|done].
  destruct (startsWith "image/" (type g)) eqn:Htype; [|done].
  by intros [= <-].
Qed.

(** X16: picking an image file in the reference widget replaces the
    reference image by that file with its object URL, clears the results
    and the error, and leaves the subject image, the loading flag, the
    progress label and the aspect ratio as they were; nothing is read or
    sent.  The subject widget does the same for the subject image. *)
Theorem upload_replaces_one_image f rest m :
  startsWith "image/" (type f) = true ->
  App.uploaderChange (App.handleReferenceImageUpload w) (Some (f :: rest)) m
  = (Returned tt,
     {| app :=
          {| referenceImage := Some {| file := f; url := createObjectURL w f |};
             subjectImage := subjectImage (app m);
             generatedImages := None;
             isLoading := isLoading (app m);
             error := None;
             progressMessage := progressMessage (app m);
             aspectRatio := aspectRatio (app m) |};
        log := log m |})
  /\ App.uploaderChange (App.handleSubjectImageUpload w) (Some (f :: rest)) m
     = (Returned tt,
        {| app :=
             {| referenceImage := referenceImage (app m);
                subjectImage :=
                  Some {| file := f; url := createObjectURL w f |};
                generatedImages := None;
                isLoading := isLoading (app m);
                error := None;
                progressMessage := progressMessage (app m);
                aspectRatio := aspectRatio (app m) |};
           log := log m |}).
Proof.
  intros Htype.
  unfold App.uploaderChange, ImageUploader.handleFileChange. simpl.
  rewrite Htype. by split.
Qed.

(** Each handler keeps the page at rest. *)
Lemma upload_reference_at_rest s f :
  at_rest s ->
  startsWith "image/" (type f) = true ->
  at_rest (App.setError None
             (App.setGeneratedImages None
                (App.setReferenceImage
                   (Some {| file := f; url := createObjectURL w f |}) s))).
Proof.
  intros [] Htype. split; simpl; try done.
  by intros u [= <-].
Qed.

Lemma upload_subject_at_rest s f :
  at_rest s ->
  startsWith "image/" (type f) = true ->
  at_rest (App.setError None
             (App.setGeneratedImages None
                (App.setSubjectImage
                   (Some {| file := f; url := createObjectURL w f |}) s))).
Proof.
  intros [] Htype. split; simpl; try done.
  by intros u [= <-].
Qed.

Lemma errorMessages_elem msg :
  msg = App.validationMessage \/ msg = App.unknownErrorMessage
  \/ msg = Service.styleFailedMessage \/ msg = Service.fusionFailedMessage ->
  msg ∈ errorMessages.
Proof.
  unfold errorMessages. rewrite !elem_of_cons. tauto.
Qed.

#[local] Arguments Service.finalPrompt : simpl never.
#[local] Arguments promise_all : simpl never.
#[local] Arguments Service.singleImageResult : simpl never.
#[local] Arguments Js.split : simpl never.
#[local] Arguments App.pngDataUrl : simpl never.

Lemma failed_run_at_rest s s' msg :
  at_rest s ->
  is_Some (referenceImage s) ->
  is_Some (subjectImage s) ->
  msg ∈ errorMessages ->
  s' = phase1 s \/ s' = phase2 s ->
  at_rest (finished (App.setError (Some msg) s')).
Proof.
  intros [] Href Hsubj Hmsg [-> | ->]; split; simpl; try done;
    by intros ? [= <-].
Qed.

Lemma generate_at_rest s m :
  at_rest s ->
  App.run (App.handleGenerateClick w) s = (Returned tt, m) ->
  at_rest (app m).
Proof.
  intros Hrest. rewrite handleGenerateClick_run.
  assert (Hmissing :
    referenceImage s = None \/ subjectImage s = None ->
    at_rest (App.setError (Some App.validationMessage) s)).
  { intros Hnone. destruct Hrest. split; simpl; try done.
    - intros msg [= <-]. apply errorMessages_elem. auto.
    - intros images Himages.
      destruct (rest_results0 images Himages) as (_ & [? Hr] & [? Hs] & _).
      destruct Hnone; congruence. }
  destruct (referenceImage s) as [reference|] eqn:Href;
    [|intros [= <-]; apply Hmissing; auto].
  destruct (subjectImage s) as [subject|] eqn:Hsubj;
    [|intros [= <-]; apply Hmissing; auto].
  cbv zeta.
  assert (Hfailed : forall msg s',
    msg ∈ errorMessages -> s' = phase1 s \/ s' = phase2 s ->
    at_rest (finished (App.setError (Some msg) s'))).
  { intros msg s' Hmsg Hs'.
    apply (failed_run_at_rest s); [done | by rewrite Href
                                  | by rewrite Hsubj | done | done]. }
  destruct (readAsDataURL w (file reference)) as [r1|].
  2:{ intros [= <-]. apply Hfailed; [apply errorMessages_elem|]; auto. }
  destruct (styleModel w _) as [response|e].
  2:{ intros [= <-]. apply Hfailed; [apply errorMessages_elem|]; auto. }
  destruct (readAsDataURL w (file subject)) as [r2|].
  2:{ intros [= <-]. apply Hfailed; [apply errorMessages_elem|]; auto. }
  destruct (promise_all _ _) as [[images|e]|] eqn:Hall; [| |done].
  - intros [= <-]. apply promise_all_fulfilled_inv in Hall.
    apply (f_equal length) in Hall. rewrite !length_fmap in Hall.
    destruct Hrest. split; simpl; try done.
    intros ? [= <-]. rewrite Href, Hsubj, length_fmap.
    repeat split; try done.
    apply Forall_fmap, Forall_true. intros base64.
    apply startsWith_append.
  - intros [= <-]. apply Hfailed; [apply errorMessages_elem|]; auto.
Qed.

End UploadFacts.

(** ** The page between events *)

Lemma initialState_at_rest : at_rest initialState.
Proof.
  split; simpl; try done.
  unfold View.aspectOptions. rewrite !elem_of_cons. auto.
Qed.

(** X17: between events the page is at rest: nothing is loading, the
    progress label is empty, the aspect ratio is one of the five options,
    both uploaded files (if any) have an [image/] media type, the error
    cell holds one of four fixed messages or nothing, and results are
    there only together with both images, without an error, as four PNG
    data URLs. *)
Theorem reachable_at_rest s : reachable s -> at_rest s.
Proof.
  induction 1 as [|s w ev m _ IH Hrun]; [apply initialState_at_rest|].
  destruct ev as [files|files|i|]; simpl in Hrun.
  - unfold App.run, App.uploaderChange in Hrun.
    destruct (ImageUploader.handleFileChange files) as [f|] eqn:Hfile.
    + apply handleFileChange_Some in Hfile as [_ Htype].
      injection Hrun as <-. by apply upload_reference_at_rest.
    + by injection Hrun as <-.
  - unfold App.run, App.uploaderChange in Hrun.
    destruct (ImageUploader.handleFileChange files) as [f|] eqn:Hfile.
    + apply handleFileChange_Some in Hfile as [_ Htype].
      injection Hrun as <-. by apply upload_subject_at_rest.
    + by injection Hrun as <-.
  - unfold App.run in Hrun.
    destruct (View.aspectOptions !! i) as [v|] eqn:Hv.
    + injection Hrun as <-. destruct IH. split; simpl; try done.
      by eapply list_elem_of_lookup_2.
    + by injection Hrun as <-.
  - by eapply generate_at_rest.
Qed.

(** X18: from any state the page can be in between events, a run sends
    only images whose media type starts with [image/] to the remote
    service. *)
Theorem only_images_are_sent w s :
  reachable s ->
  Forall (fun mime => startsWith "image/" mime = true)
    (sentMediaTypes (log (App.run (App.handleGenerateClick w) s).2)).
Proof.
  intros Hreach. apply reachable_at_rest in Hreach.
  rewrite handleGenerateClick_run.
  destruct (referenceImage s) as [reference|] eqn:Href; [|constructor].
  destruct (subjectImage s) as [subject|] eqn:Hsubj; [|constructor].
  pose proof (rest_reference s Hreach reference Href) as Hr.
  pose proof (rest_subject s Hreach subject Hsubj) as Hs.
  cbv zeta.
  destruct (readAsDataURL w (file reference)) as [r1|]; [|constructor].
  destruct (styleModel w _) as [response|e];
    [|by repeat constructor].
  destruct (readAsDataURL w (file subject)) as [r2|];
    [|by repeat constructor].
  destruct (promise_all _ _) as [[images|e]|]; by repeat constructor.
Qed.

(** ** The further statements at concrete inputs *)

Module MoreChecks.

Import Sample Sample2.

Lemma completed_on_sample :
  View.generateDisabled
    (app (App.run (App.handleGenerateClick (happy fullStyle [2; 0; 3; 1]))
            bothUploaded).2)
  = false
  /\ View.spinner
       (app (App.run (App.handleGenerateClick (happy fullStyle [2; 0; 3; 1]))
               bothUploaded).2)
     = None.
Proof.
  assert (Hrun :
    App.run (App.handleGenerateClick (happy fullStyle [2; 0; 3; 1]))
      bothUploaded
    = (Returned tt,
       (App.run (App.handleGenerateClick (happy fullStyle [2; 0; 3; 1]))
          bothUploaded).2)).
  { vm_compute. reflexivity. }
  destruct (handleGenerateClick_completed (happy fullStyle [2; 0; 3; 1])
              bothUploaded {| file := referenceFile; url := "blob:reference" |} {| file := subjectFile; url := "blob:subject" |} _
              eq_refl eq_refl Hrun)
    as (_ & _ & _ & Henabled & Hspinner & _).
  split; [exact Henabled | exact Hspinner].
Defined.

Lemma view_while_running_on_sample :
  Forall (fun s' =>
            View.generateDisabled s' = true
            /\ View.generateLabel s' = "Generating..."
            /\ (View.spinner s' = Some App.step1Message
                \/ View.spinner s' = Some App.step2Message)
            /\ View.gallery s' = None
            /\ View.errorBox s' = None)
    (shown (log (App.run (App.handleGenerateClick thirdFails)
                   bothUploaded).2)).
Proof.
  apply (handleGenerateClick_view_while_running thirdFails bothUploaded _ _
           eq_refl eq_refl).
Defined.

Lemma enabled_trigger_on_sample :
  head (shown (log (App.run (App.handleGenerateClick styleBlocked)
                      afterUploads).2))
  = Some (phase1 afterUploads)
  /\ error (app (App.run (App.handleGenerateClick styleBlocked)
                   afterUploads).2)
     <> Some App.validationMessage.
Proof.
  apply (enabled_trigger_starts_run styleBlocked afterUploads eq_refl).
Defined.

Lemma read_failure_on_sample :
  failedWith App.unknownErrorMessage
    (app (App.run (App.handleGenerateClick unreadable) bothUploaded).2)
  /\ remoteCalls
       (log (App.run (App.handleGenerateClick unreadable) bothUploaded).2)
     = [].
Proof.
  destruct (proj1 (read_failure_aborts_run unreadable bothUploaded _ _
                     eq_refl eq_refl) eq_refl) as (_ & Hfailed & Hcalls).
  split; [exact Hfailed | exact Hcalls].
Defined.

Lemma fusion_failure_on_sample :
  View.errorBox
    (app (App.run (App.handleGenerateClick thirdFails) bothUploaded).2)
  = Some Service.fusionFailedMessage
  /\ View.gallery
       (app (App.run (App.handleGenerateClick thirdFails) bothUploaded).2)
     = None.
Proof.
  destruct (fusion_failure_fails_run thirdFails bothUploaded _ _ _
              {| text := fullStyle |} _ 2 (ErrorObj Service.noImageMessage)
              eq_refl eq_refl eq_refl eq_refl eq_refl)
    as (_ & _ & Hbox & Hgallery).
  - lia.
  - reflexivity.
  - simpl. rewrite !elem_of_cons. auto.
  - split; [exact Hbox | exact Hgallery].
Defined.

Lemma full_run_on_sample :
  succeededWith
    ["data:image/png;base64,IMG0"; "data:image/png;base64,IMG1";
     "data:image/png;base64,IMG2"; "data:image/png;base64,IMG3"]
    (app (App.run (App.handleGenerateClick (happy fullStyle [3; 1; 0; 2]))
            bothUploaded).2).
Proof.
  destruct (full_run_succeeds (happy fullStyle [3; 1; 0; 2]) bothUploaded
              _ _ _ {| text := fullStyle |} _ "IMG0" "IMG1" "IMG2" "IMG3"
              eq_refl eq_refl eq_refl eq_refl eq_refl eq_refl)
    as (_ & Hok & _).
  - intros [|[|[|[|i]]]] Hi; simpl; rewrite !elem_of_cons; auto. lia.
  - exact Hok.
Defined.

Lemma unsettled_call_on_sample :
  (App.run (App.handleGenerateClick lastHangs) bothUploaded).1 = Pending
  /\ View.spinner
       (app (App.run (App.handleGenerateClick lastHangs) bothUploaded).2)
     = Some App.step2Message.
Proof.
  destruct (unsettled_call_suspends_run lastHangs bothUploaded _ _ _
              {| text := fullStyle |} _ 3
              eq_refl eq_refl eq_refl eq_refl eq_refl)
    as (Hpending & _ & Hspinner & _).
  - lia.
  - intros Hin. by absent_from_log Hin.
  - intros i e _ Hrej. discriminate Hrej.
  - split; [exact Hpending | exact Hspinner].
Defined.

Lemma ignores_stale_on_sample :
  App.run (App.handleGenerateClick thirdFails)
    (App.setError (Some "an earlier failure")
       (App.setGeneratedImages (Some ["data:image/png;base64,b2xk"])
          afterUploads))
  = App.run (App.handleGenerateClick thirdFails) afterUploads.
Proof.
  apply (run_ignores_stale_state thirdFails afterUploads
           {| file := referenceFile; url := "blob:reference.jpg" |}
           {| file := subjectFile; url := "blob:subject.png" |}
           (Some ["data:image/png;base64,b2xk"]) (Some "an earlier failure")
           eq_refl eq_refl).
Defined.

Lemma without_comma_on_sample :
  App.fileToBase64 bareReader referenceFile
    {| app := afterUploads; log := [] |}
  = (Returned None,
     {| app := afterUploads; log := [EvReadFile referenceFile] |}).
Proof.
  apply (proj1 (fileToBase64_without_comma bareReader referenceFile
                  {| app := afterUploads; log := [] |} "QUJD"
                  eq_refl eq_refl)).
Defined.

Lemma second_segment_on_sample :
  App.fileToBase64 trailingReader subjectFile
    {| app := afterUploads; log := [] |}
  = (Returned (Some "QUJD"),
     {| app := afterUploads; log := [EvReadFile subjectFile] |}).
Proof.
  apply (fileToBase64_second_segment trailingReader subjectFile
           {| app := afterUploads; log := [] |}
           "data:image/png;base64" "QUJD" "tail" eq_refl eq_refl eq_refl).
Defined.

Lemma download_names_on_sample :
  GeneratedImage.download (GeneratedImage.handleDownload "a" 2)
  <> GeneratedImage.download (GeneratedImage.handleDownload "a" 3).
Proof.
  apply (download_names_distinct "a" "a" 2 3);
    [reflexivity | reflexivity | discriminate].
Defined.

Lemma gallery_tiles_on_sample :
  exists images,
    generatedImages bothUploaded = Some images
    /\ length [ {| View.src := "data:image/png;base64,b2xk";
                   View.alt := "AI Generated Fusion Image 1";
                   View.index := 0 |} ]
       = length images.
Proof.
  destruct (gallery_tiles bothUploaded _ eq_refl)
    as (images & Himages & Hlen & _).
  exists images. split; [exact Himages | exact Hlen].
Defined.

Lemma upload_on_sample :
  App.uploaderChange (App.handleSubjectImageUpload thirdFails)
    (Some [subjectFile; notesFile]) {| app := afterReference; log := [] |}
  = (Returned tt, {| app := afterUploads; log := [] |}).
Proof.
  apply (proj2 (upload_replaces_one_image thirdFails subjectFile [notesFile]
                  {| app := afterReference; log := [] |} eq_refl)).
Defined.

Lemma afterUploads_reachable : reachable afterUploads.
Proof.
  apply (reachable_event afterReference thirdFails
           (PickSubject (Some [subjectFile]))
           {| app := afterUploads; log := [] |}); [|reflexivity].
  apply (reachable_event initialState thirdFails
           (PickReference (Some [referenceFile]))
           {| app := afterReference; log := [] |}); [|reflexivity].
  apply reachable_initial.
Defined.

Lemma at_rest_on_sample : at_rest afterUploads.
Proof. apply (reachable_at_rest afterUploads afterUploads_reachable). Defined.

Lemma only_images_on_sample :
  Forall (fun mime => startsWith "image/" mime = true)
    (sentMediaTypes
       (log (App.run (App.handleGenerateClick thirdFails) afterUploads).2)).
Proof.
  apply (only_images_are_sent thirdFails afterUploads afterUploads_reachable).
Defined.

End MoreChecks.
